(** * ABC/VEN analysis: a shallow embedding of [analyzer.ts]

    The development follows the TypeScript source function by function:
    [analyzeABC], [getABCSummary], [getVENSummary], [getABCVENMatrix] and
    [getVENDistributionByABC], over the interfaces of [types.ts].

    Numbers.  A JavaScript [number] is modelled by [num]: a finite value is
    an exact rational, and the three special values NaN, +Infinity and
    -Infinity are kept, with the arithmetic and the comparisons JavaScript
    gives them (0/0 = NaN, x/0 = +-Infinity, every comparison with NaN is
    false).  Rounding of finite results, and with it overflow, is not
    modelled: a statement that the specification makes "within
    floating-point tolerance" is proved here as an exact equality of
    rationals.  The two zeros are identified;
    every divisor in the program is an array length, a counter or a sum
    started from +0, none of which can be the negative zero.  Array
    lengths and the counters that the source increments from 0 are natural
    numbers, turned into numbers by [of_nat] where they are divided.

    Values and references.  The five functions are first given on values
    (lists of records).  [analyzeABC] is given a second time over a store
    of arrays and objects, where copying, sorting in place and allocating
    are what the source does, and is shown to compute the same values and
    to leave the store it was given as it was. *)

From Stdlib Require Import QArith Lqa Lia.
From stdpp Require Import base list sorting functions gmap strings.

Local Open Scope Q_scope.

(** ** JavaScript numbers *)

Inductive num : Type :=
| Fin (q : Q)
| PInf
| NInf
| NaN.

Declare Scope num_scope.
Delimit Scope num_scope with num.
Bind Scope num_scope with num.

Definition num_neg (x : num) : num :=
  match x with
  | Fin q => Fin (- q)
  | PInf => NInf
  | NInf => PInf
  | NaN => NaN
  end.

Definition num_add (x y : num) : num :=
  match x, y with
  | NaN, _ | _, NaN => NaN
  | PInf, NInf | NInf, PInf => NaN
  | PInf, _ | _, PInf => PInf
  | NInf, _ | _, NInf => NInf
  | Fin p, Fin q => Fin (p + q)
  end.

Definition num_sub (x y : num) : num := num_add x (num_neg y).

(** The sign of a rational, used where an infinity meets a finite factor. *)
Definition Qsign (q : Q) : comparison := q ?= 0.

Definition num_mul (x y : num) : num :=
  match x, y with
  | NaN, _ | _, NaN => NaN
  | PInf, PInf | NInf, NInf => PInf
  | PInf, NInf | NInf, PInf => NInf
  | PInf, Fin q | Fin q, PInf =>
      match Qsign q with Gt => PInf | Lt => NInf | Eq => NaN end
  | NInf, Fin q | Fin q, NInf =>
      match Qsign q with Gt => NInf | Lt => PInf | Eq => NaN end
  | Fin p, Fin q => Fin (p * q)
  end.

Definition num_div (x y : num) : num :=
  match x, y with
  | NaN, _ | _, NaN => NaN
  | (PInf | NInf), (PInf | NInf) => NaN
  | PInf, Fin q => match Qsign q with Lt => NInf | _ => PInf end
  | NInf, Fin q => match Qsign q with Lt => PInf | _ => NInf end
  | Fin _, (PInf | NInf) => Fin 0
  | Fin p, Fin q =>
      match Qsign q with
      | Eq => match Qsign p with Eq => NaN | Gt => PInf | Lt => NInf end
      | _ => Fin (p / q)
      end
  end.

(** [x < y] of JavaScript: false as soon as one side is NaN. *)
Definition num_ltb (x y : num) : bool :=
  match x, y with
  | NaN, _ | _, NaN => false
  | _, NInf => false
  | PInf, _ => false
  | NInf, _ => true
  | _, PInf => true
  | Fin p, Fin q => match p ?= q with Lt => true | _ => false end
  end.

Definition num_gtb (x y : num) : bool := num_ltb y x.

(** [x <= y] of JavaScript. *)
Definition num_leb (x y : num) : bool :=
  match x, y with
  | NaN, _ | _, NaN => false
  | NInf, _ => true
  | _, PInf => true
  | _, NInf => false
  | PInf, _ => false
  | Fin p, Fin q => match p ?= q with Gt => false | _ => true end
  end.

Definition num_geb (x y : num) : bool := num_leb y x.

Arguments num_gtb : simpl never.
Arguments num_geb : simpl never.

(** [x === y] of JavaScript on numbers: NaN is equal to nothing. *)
Definition num_eqb (x y : num) : bool :=
  match x, y with
  | Fin p, Fin q => Qeq_bool p q
  | PInf, PInf | NInf, NInf => true
  | _, _ => false
  end.

Definition num_eq (x y : num) : Prop := num_eqb x y = true.

Definition is_nan (x : num) : bool :=
  match x with NaN => true | _ => false end.

Definition is_finite (x : num) : bool :=
  match x with Fin _ => true | _ => false end.

(** An array length or a counter, as a number. *)
Definition of_nat (n : nat) : num := Fin (inject_Z (Z.of_nat n)).

Definition of_Z (z : Z) : num := Fin (inject_Z z).

Infix "+" := num_add : num_scope.
Infix "-" := num_sub : num_scope.
Infix "*" := num_mul : num_scope.
Infix "/" := num_div : num_scope.
Infix "<?" := num_ltb : num_scope.
Infix ">?" := num_gtb : num_scope.
Infix "<=?" := num_leb : num_scope.
Infix ">=?" := num_geb : num_scope.
Infix "===" := num_eq (at level 70, no associativity) : num_scope.

Notation "0" := (Fin 0) : num_scope.
Notation "80" := (Fin 80) : num_scope.
Notation "95" := (Fin 95) : num_scope.
Notation "100" := (Fin 100) : num_scope.

(** ** The interfaces of [types.ts] *)

Inductive VENCategory : Type := V | E | N.
Inductive ABCCategory : Type := A | B | C.

#[global] Instance VENCategory_eq_dec : EqDecision VENCategory.
Proof. solve_decision. Defined.

#[global] Instance ABCCategory_eq_dec : EqDecision ABCCategory.
Proof. solve_decision. Defined.

Definition VEN_to_nat (v : VENCategory) : nat :=
  match v with V => 0 | E => 1 | N => 2 end.

Definition VEN_of_nat (n : nat) : option VENCategory :=
  match n with
  | O => Some V
  | S O => Some E
  | S (S O) => Some N
  | _ => None
  end.

Definition ABC_to_nat (a : ABCCategory) : nat :=
  match a with A => 0 | B => 1 | C => 2 end.

Definition ABC_of_nat (n : nat) : option ABCCategory :=
  match n with
  | O => Some A
  | S O => Some B
  | S (S O) => Some C
  | _ => None
  end.

#[global] Program Instance VENCategory_countable : Countable VENCategory :=
  inj_countable VEN_to_nat VEN_of_nat _.
Next Obligation. by intros []. Qed.

#[global] Program Instance ABCCategory_countable : Countable ABCCategory :=
  inj_countable ABC_to_nat ABC_of_nat _.
Next Obligation. by intros []. Qed.

(** [interface DrugItem].  The field [unit] of the source is [unit_] here,
    [unit] being a type of the prelude. *)
Record DrugItem : Type := mkDrugItem {
  code : num;
  name : string;
  unit_ : string;
  quantity : num;
  amount : num;
  ven : VENCategory
}.

(** [interface AnalyzedItem extends DrugItem]: the fields of the base
    interface are reached through the coercion [item]. *)
Record AnalyzedItem : Type := mkAnalyzedItem {
  item :> DrugItem;
  percentOfTotal : num;
  cumulativePercent : num;
  abc : ABCCategory
}.

(** The anonymous [{ count: number; amount: number }] of the summaries. *)
Module Group.
Record t : Type := mk { count : nat; amount : num }.
End Group.

(** [interface CategoryStats]. *)
Module CategoryStats.
Record t : Type := mk {
  count : nat;
  amount : num;
  percentCount : num;
  percentAmount : num
}.
End CategoryStats.

(** [interface ABCSummary] and [interface VENSummary] differ in the type of
    [category] only. *)
Module Summary.
Record t (K : Type) : Type := mk {
  category : K;
  count : nat;
  amount : num;
  percentCount : num;
  percentAmount : num
}.
Arguments mk {K}.
Arguments category {K}.
Arguments count {K}.
Arguments amount {K}.
Arguments percentCount {K}.
Arguments percentAmount {K}.
End Summary.

Definition ABCSummary : Type := Summary.t ABCCategory.
Definition VENSummary : Type := Summary.t VENCategory.

(** ** [Array.prototype.sort]

    ECMAScript specifies the sort as stable; with a consistent comparator
    the result is the one stable arrangement, which the insertion below
    computes.  A comparator value [v] puts [a] after [b] when [v > 0]; a
    value that is negative, zero or NaN leaves [a] in front. *)

Section Sort.
Context {T : Type} (compareFn : T -> T -> num).

Fixpoint sort_insert (a : T) (l : list T) : list T :=
  match l with
  | [] => [a]
  | b :: l' =>
      if (compareFn a b >? 0)%num then b :: sort_insert a l' else a :: l
  end.

Definition sort (l : list T) : list T := foldr sort_insert [] l.

End Sort.

(** ** [analyzeABC] *)

Open Scope num_scope.

(** [(sum, item) => sum + item.amount], the reducer of every total. *)
Definition sumAmount {T : Type} (amt : T -> num) (sum : num) (x : T) : num :=
  sum + amt x.

Definition totalOf {T : Type} (amt : T -> num) (l : list T) : num :=
  foldl (sumAmount amt) 0 l.

(** The tier chosen from the cumulative percent before the current item. *)
Definition tierOf (cumulativePercent : num) : ABCCategory :=
  if cumulativePercent <? 80 then A
  else if cumulativePercent <? 95 then B
  else C.

(** The callback of [sorted.map]: it reads and updates the variable
    [cumulativePercent] of the enclosing scope, threaded here as state. *)
Definition analyzeItem (totalAmount : num) (cumulativePercent : num)
    (it : DrugItem) : AnalyzedItem * num :=
  let percentOfTotal := (amount it / totalAmount) * 100 in
  let abc := tierOf cumulativePercent in
  let cumulativePercent := cumulativePercent + percentOfTotal in
  ({| item := it;
      percentOfTotal := percentOfTotal;
      cumulativePercent := cumulativePercent;
      abc := abc |}, cumulativePercent).

Fixpoint mapWithState {S X Y : Type} (f : S -> X -> Y * S) (s : S)
    (l : list X) : list Y :=
  match l with
  | [] => []
  | x :: l' => let (y, s') := f s x in y :: mapWithState f s' l'
  end.

Definition compareAmount (a b : DrugItem) : num := amount b - amount a.

Definition analyzeABC (items : list DrugItem) : list AnalyzedItem :=
  let sorted := sort compareAmount items in
  let totalAmount := totalOf amount sorted in
  mapWithState (analyzeItem totalAmount) 0 sorted.

(** ** [getABCSummary] and [getVENSummary]

    The two functions of the source are the same text up to the field that
    selects the group ([item.abc] or [item.ven]) and the literal array of
    categories; [summarize] is that text, with the two as parameters.  The
    object [groups], which has every category as a key from its literal
    on, is a total function updated in place. *)

Section Summaries.
Context {K : Type} `{EqDecision K}.
Variable key : AnalyzedItem -> K.

Definition groupsInit : K -> Group.t := fun _ => Group.mk 0%nat 0.

(** The body of [for (const item of analyzedItems)]. *)
Definition addToGroup (groups : K -> Group.t) (it : AnalyzedItem)
    : K -> Group.t :=
  alter (fun g => Group.mk (S (Group.count g)) (Group.amount g + amount it))
        (key it) groups.

Definition summaryOf (totalCount : nat) (totalAmount : num)
    (groups : K -> Group.t) (category : K) : Summary.t K :=
  {| Summary.category := category;
     Summary.count := Group.count (groups category);
     Summary.amount := Group.amount (groups category);
     Summary.percentCount :=
       (of_nat (Group.count (groups category)) / of_nat totalCount) * 100;
     Summary.percentAmount :=
       (Group.amount (groups category) / totalAmount) * 100 |}.

Definition summarize (categories : list K)
    (analyzedItems : list AnalyzedItem) : list (Summary.t K) :=
  let totalAmount := totalOf (fun it : AnalyzedItem => amount it) analyzedItems in
  let totalCount := length analyzedItems in
  let groups := foldl addToGroup groupsInit analyzedItems in
  map (summaryOf totalCount totalAmount groups) categories.

End Summaries.

Definition getABCSummary (analyzedItems : list AnalyzedItem)
    : list ABCSummary :=
  summarize abc [A; B; C] analyzedItems.

Definition getVENSummary (analyzedItems : list AnalyzedItem)
    : list VENSummary :=
  summarize (fun it : AnalyzedItem => ven it) [V; E; N] analyzedItems.

(** ** [getABCVENMatrix]

    [ABCVENMatrix] is an object with an index signature, built from [{}]
    key by key: a finite map of finite maps.  An access
    [matrix[abc][ven]] to an absent key would raise a TypeError in the
    source; [alter] leaves the map as it is there, and
    [matrix_cell_present] below shows that the case does not arise. *)

Abbreviation ABCVENMatrix := (gmap ABCCategory (gmap VENCategory CategoryStats.t)).

Definition zeroStats : CategoryStats.t := CategoryStats.mk 0%nat 0 0 0.

(** The first pair of nested loops: every cell is created, at zero. *)
Definition matrixInit : ABCVENMatrix :=
  foldl (fun matrix abc =>
           foldl (fun matrix ven => alter (insert ven zeroStats) abc matrix)
                 (<[abc := ∅]> matrix) [V; E; N])
        ∅ [A; B; C].

(** [matrix[abc][ven]], updated in place by [f]. *)
Definition updateCell (f : CategoryStats.t -> CategoryStats.t)
    (abc : ABCCategory) (ven : VENCategory) (matrix : ABCVENMatrix)
    : ABCVENMatrix :=
  alter (alter f ven) abc matrix.

Definition accumulate (it : AnalyzedItem) (c : CategoryStats.t)
    : CategoryStats.t :=
  {| CategoryStats.count := S (CategoryStats.count c);
     CategoryStats.amount := CategoryStats.amount c + amount it;
     CategoryStats.percentCount := CategoryStats.percentCount c;
     CategoryStats.percentAmount := CategoryStats.percentAmount c |}.

Definition matrixPercent (totalCount : nat) (totalAmount : num)
    (c : CategoryStats.t) : CategoryStats.t :=
  {| CategoryStats.count := CategoryStats.count c;
     CategoryStats.amount := CategoryStats.amount c;
     CategoryStats.percentCount :=
       (of_nat (CategoryStats.count c) / of_nat totalCount) * 100;
     CategoryStats.percentAmount :=
       (CategoryStats.amount c / totalAmount) * 100 |}.

Definition getABCVENMatrix (analyzedItems : list AnalyzedItem)
    : ABCVENMatrix :=
  let totalCount := length analyzedItems in
  let totalAmount := totalOf (fun it : AnalyzedItem => amount it) analyzedItems in
  let matrix := matrixInit in
  let matrix :=
    foldl (fun matrix (it : AnalyzedItem) =>
             updateCell (accumulate it) (abc it) (ven it) matrix)
          matrix analyzedItems in
  foldl (fun matrix abc =>
           foldl (fun matrix ven =>
                    updateCell (matrixPercent totalCount totalAmount)
                               abc ven matrix)
                 matrix [V; E; N])
        matrix [A; B; C].

(** [matrix[abc][ven]] as a read: absent keys give [None]. *)
Definition cell (matrix : ABCVENMatrix) (abc : ABCCategory)
    (ven : VENCategory) : option CategoryStats.t :=
  matrix !! abc ≫= (.!! ven).

(** ** [getVENDistributionByABC]

    [result] and [abcGroups] are [Record<ABCCategory, ...>] literals with
    every key: total functions. *)

Abbreviation Distribution :=
  (ABCCategory -> VENCategory -> CategoryStats.t).

Definition resultInit : Distribution := fun _ _ => zeroStats.

(** [abcGroups[item.abc].push(item)] *)
Definition pushGroup (abcGroups : ABCCategory -> list AnalyzedItem)
    (it : AnalyzedItem) : ABCCategory -> list AnalyzedItem :=
  alter (fun l => l ++ [it]) (abc it) abcGroups.

Definition groupBy (analyzedItems : list AnalyzedItem)
    : ABCCategory -> list AnalyzedItem :=
  foldl pushGroup (fun _ => []) analyzedItems.

(** [result[abc][ven]], updated in place by [f]. *)
Definition updateDist (f : CategoryStats.t -> CategoryStats.t)
    (abc : ABCCategory) (ven : VENCategory) (result : Distribution)
    : Distribution :=
  alter (alter f ven) abc result.

Definition distPercent (groupCount : nat) (groupAmount : num)
    (c : CategoryStats.t) : CategoryStats.t :=
  {| CategoryStats.count := CategoryStats.count c;
     CategoryStats.amount := CategoryStats.amount c;
     CategoryStats.percentCount :=
       if of_nat groupCount >? 0
       then (of_nat (CategoryStats.count c) / of_nat groupCount) * 100
       else 0;
     CategoryStats.percentAmount :=
       if groupAmount >? 0
       then (CategoryStats.amount c / groupAmount) * 100
       else 0 |}.

(** The body of [for (const abc of ['A', 'B', 'C'])]. *)
Definition distributeTier (abcGroups : ABCCategory -> list AnalyzedItem)
    (result : Distribution) (abc : ABCCategory) : Distribution :=
  let groupItems := abcGroups abc in
  let groupCount := length groupItems in
  let groupAmount := totalOf (fun it : AnalyzedItem => amount it) groupItems in
  let result :=
    foldl (fun result (it : AnalyzedItem) =>
             updateDist (accumulate it) abc (ven it) result)
          result groupItems in
  foldl (fun result ven =>
           updateDist (distPercent groupCount groupAmount) abc ven result)
        result [V; E; N].

Definition getVENDistributionByABC (analyzedItems : list AnalyzedItem)
    : Distribution :=
  let result := resultInit in
  let abcGroups := groupBy analyzedItems in
  foldl (distributeTier abcGroups) result [A; B; C].

Close Scope num_scope.

(** ** Notions of the specification *)

#[global] Instance num_eq_dec (x y : num) : Decision (x === y)%num.
Proof. unfold num_eq. apply _. Defined.

(** [a] may stand before [b] in the output: its amount is not smaller. *)
Definition amount_ge (a b : DrugItem) : Prop :=
  (amount b <=? amount a)%num = true.

Definition amount_ok (a : DrugItem) : Prop := is_nan (amount a) = false.

(** The cumulative share of the items strictly before position [i], as the
    specification defines it: the sum, from 0, of their
    [percentOfTotal]. *)
Definition cumulativeBefore (out : list AnalyzedItem) (i : nat) : num :=
  foldl num_add 0%num (map percentOfTotal (take i out)).

(** ** [analyzeABC] over a store

    The functions above take and return values.  What the source does to
    its argument is a matter of references: [[...items]] copies the array
    of references, [sort] permutes that copy in place, and [map] builds one
    new object per element.  [Store.analyzeABC] is the same function over a
    store of arrays and objects, and [Store.contents] reads an array back
    as the list of the objects it refers to. *)

Module Store.

Definition loc : Type := positive.

(** An element of a [DrugItem[]] is any object with the fields of
    [DrugItem]; an [AnalyzedItem] is one. *)
Inductive object : Type :=
| ODrugItem (d : DrugItem)
| OAnalyzedItem (a : AnalyzedItem).

Definition asDrugItem (o : object) : DrugItem :=
  match o with
  | ODrugItem d => d
  | OAnalyzedItem a => item a
  end.

Record heap : Type := mkHeap {
  arrays : gmap loc (list loc);
  objects : gmap loc object
}.

(** Computations that read and write the store and fail on a dangling
    reference. *)
Definition M (X : Type) : Type := heap -> option (X * heap).

#[global] Instance M_ret : MRet M := fun X x h => Some (x, h).

#[global] Instance M_bind : MBind M := fun X Y k c h =>
  match c h with
  | Some (x, h') => k x h'
  | None => None
  end.

Definition readArray (a : loc) : M (list loc) :=
  fun h => match arrays h !! a with
           | Some v => Some (v, h)
           | None => None
           end.

Definition newArray (v : list loc) : M loc :=
  fun h => let a := fresh (dom (arrays h)) in
           Some (a, mkHeap (<[a := v]> (arrays h)) (objects h)).

Definition writeArray (a : loc) (v : list loc) : M unit :=
  fun h => match arrays h !! a with
           | Some _ => Some (tt, mkHeap (<[a := v]> (arrays h)) (objects h))
           | None => None
           end.

Definition readObject (o : loc) : M object :=
  fun h => match objects h !! o with
           | Some x => Some (x, h)
           | None => None
           end.

Definition newObject (x : object) : M loc :=
  fun h => let o := fresh (dom (objects h)) in
           Some (o, mkHeap (arrays h) (<[o := x]> (objects h))).

Fixpoint forEach {X Y : Type} (f : X -> M Y) (l : list X) : M (list Y) :=
  match l with
  | [] => mret []
  | x :: l' => y ← f x; ys ← forEach f l'; mret (y :: ys)
  end.

Fixpoint forEachWithState {S X Y : Type} (f : S -> X -> M (Y * S)) (s : S)
    (l : list X) : M (list Y) :=
  match l with
  | [] => mret []
  | x :: l' =>
      r ← f s x; ys ← forEachWithState f r.2 l'; mret (r.1 :: ys)
  end.

(** The objects an array refers to, in order. *)
Definition readElements (a : loc) : M (list object) :=
  refs ← readArray a; forEach readObject refs.

(** [array.sort(compareFn)]: the array at [a] is rearranged in place. *)
Definition sortInPlace (compareFn : object -> object -> num) (a : loc)
    : M unit :=
  refs ← readArray a;
  objs ← forEach readObject refs;
  writeArray a
    (map fst (sort (fun x y => compareFn x.2 y.2) (zip refs objs))).

(** [array.reduce(f, init)] *)
Definition reduce {S : Type} (f : S -> object -> S) (init : S) (a : loc)
    : M S :=
  objs ← readElements a; mret (foldl f init objs).

(** The callback of [sorted.map], allocating the object literal
    [{ ...item, percentOfTotal, cumulativePercent, abc }]. *)
Definition analyzeItem (totalAmount : num) (cumulativePercent : num)
    (it : object) : M (loc * num) :=
  let r := analyzeItem totalAmount cumulativePercent (asDrugItem it) in
  o ← newObject (OAnalyzedItem r.1); mret (o, r.2).

Definition analyzeABC (items : loc) : M loc :=
  elems ← readArray items;
  sorted ← newArray elems;
  sortInPlace
    (fun a b => (amount (asDrugItem b) - amount (asDrugItem a))%num)
    sorted;;
  totalAmount ←
    reduce (fun sum it => (sum + amount (asDrugItem it))%num) 0%num sorted;
  objs ← readElements sorted;
  out ← forEachWithState (analyzeItem totalAmount) 0%num objs;
  newArray out.

(** Reading an array of the store as a list of objects. *)
Definition contents (h : heap) (a : loc) : option (list object) :=
  refs ← arrays h !! a; mapM (fun o => objects h !! o) refs.

(** Whatever [h] holds, [h'] holds unchanged. *)
Definition preserved (h h' : heap) : Prop :=
  arrays h ⊆ arrays h' /\ objects h ⊆ objects h'.

End Store.

(** ** Items of the test suite

    [createItem] of [analyzer.test.ts], with the name and the unit in
    ASCII, and [createAnalyzedItem] as the tests of
    [getVENDistributionByABC] define it. *)

Definition createItem (code : Z) (amount : Q) (ven : VENCategory)
    : DrugItem :=
  {| code := of_Z code; name := "Drug"; unit_ := "pack";
     quantity := Fin 10; amount := Fin amount; ven := ven |}.

Definition createAnalyzedItem (code : Z) (amount : Q) (abc : ABCCategory)
    (ven : VENCategory) : AnalyzedItem :=
  {| item := createItem code amount ven;
     percentOfTotal := 0%num; cumulativePercent := 0%num; abc := abc |}.

(** The store of the test "should not modify original array": an array of
    two items, amounts 100 and 300. *)
Definition twoItemsStore : Store.heap :=
  {| Store.arrays := {[ 1%positive := [1%positive; 2%positive] ]};
     Store.objects :=
       {[ 1%positive := Store.ODrugItem (createItem 1 100 V);
          2%positive := Store.ODrugItem (createItem 2 300 V) ]} |}.

(** ** Sums, for the statements *)

(** The rational value of a finite number. *)
Definition Qval (x : num) : Q :=
  match x with Fin q => q | _ => 0 end.

Definition Qsum (l : list Q) : Q := foldr Qplus 0 l.


Definition finite_amount (it : AnalyzedItem) : Prop :=
  is_finite (amount it) = true.

(** The items of a list that fall under the key [k], in their order. *)
Definition bucket {X K : Type} `{EqDecision K} (key : X -> K) (k : K)
    (l : list X) : list X :=
  filter (fun x => key x = k) l.

(** The batch of the test "should sum amounts in each ABC/VEN
    combination". *)
Definition matrixBatch : list AnalyzedItem :=
  [createAnalyzedItem 1 50000 A V; createAnalyzedItem 2 30000 A V;
   createAnalyzedItem 3 10000 B E; createAnalyzedItem 4 5000 C N].

(** The nine pairs of a tier and a criticality, row by row, and the cells
    of a matrix read in that order. *)
Definition allCells : list (ABCCategory * VENCategory) :=
  x ← [A; B; C]; y ← [V; E; N]; [(x, y)].

Definition abcven (it : AnalyzedItem) : ABCCategory * VENCategory :=
  (abc it, ven it).

Definition matrixCells
    (matrix : gmap ABCCategory (gmap VENCategory CategoryStats.t))
    : list CategoryStats.t :=
  omap (fun k => cell matrix k.1 k.2) allCells.

(** The three cells of a tier in a distribution, in the order V, E, N. *)
Definition tierCells (result : ABCCategory -> VENCategory -> CategoryStats.t)
    (abc : ABCCategory) : list CategoryStats.t :=
  map (result abc) [V; E; N].

(** One item of tier A whose amount is 0. *)
Definition zeroBatch : list AnalyzedItem := [createAnalyzedItem 1 0 A V].

(** An amount that the classifier is designed for: finite and not
    negative. *)
Definition amount_nonneg (it : DrugItem) : Prop :=
  is_finite (amount it) = true /\ (amount it >=? 0)%num = true.

(** The input of the test "should calculate cumulative percent correctly":
    amounts 50, 30 and 20. *)
Definition cumulativeItems : list DrugItem :=
  [createItem 1 50 V; createItem 2 30 V; createItem 3 20 V].

(** The batch of the test "should handle empty category" of
    [getABCSummary]: amounts 98000 in tier A and 2000 in tier C. *)
Definition emptyCategoryBatch : list AnalyzedItem :=
  [createAnalyzedItem 1 98000 A V; createAnalyzedItem 2 2000 C V].

(** ** Further notions for the statements *)

(** The order A, B, C of the tiers. *)
Definition tier_le (a b : ABCCategory) : Prop :=
  (ABC_to_nat a <= ABC_to_nat b)%nat.

(** An amount that is a finite number. *)
Definition amount_finite (it : DrugItem) : Prop :=
  is_finite (amount it) = true.

(** The counts and the amounts of the cells of a matrix for one tier, in
    the order V, E, N, and for one criticality, in the order A, B, C. *)
Definition matrixRow
    (matrix : gmap ABCCategory (gmap VENCategory CategoryStats.t))
    (abc : ABCCategory) : list CategoryStats.t :=
  omap (fun ven => cell matrix abc ven) [V; E; N].

Definition matrixColumn
    (matrix : gmap ABCCategory (gmap VENCategory CategoryStats.t))
    (ven : VENCategory) : list CategoryStats.t :=
  omap (fun abc => cell matrix abc ven) [A; B; C].

(** * The parser, [parser.ts], and the cells of the converter

    A JavaScript string is modelled by [string], the UTF-8 bytes of its
    text.  The functions below look at a string only through the
    characters double quote, comma and line feed and through a literal
    prefix; none of these bytes occurs inside the encoding of another
    character, so that reading bytes and reading code units agree.

    The built-in functions of the language that the parser calls
    ([String.prototype.trim], [toUpperCase], [parseInt], [parseFloat]) and
    the file system are parameters: the properties proved of the parser
    hold whatever they compute. *)

(** The characters with the codes 34 (double quote), 44 (comma) and 10
    (line feed). *)
Definition quote : Ascii.ascii := Eval cbv in Ascii.ascii_of_nat 34.
Definition comma : Ascii.ascii := Eval cbv in Ascii.ascii_of_nat 44.
Definition lineFeed : Ascii.ascii := Eval cbv in Ascii.ascii_of_nat 10.

(** [current += char] *)
Definition pushChar (current : string) (char : Ascii.ascii) : string :=
  (current +:+ String char EmptyString)%string.

(** The loop of [parseCSVLine] over what is left of the line, with the
    variables [result], [current] and [inQuotes]; a doubled quote inside
    quotes takes two characters at once ([i++]). *)
Fixpoint parseChars (line : string) (result : list string) (current : string)
    (inQuotes : bool) : list string :=
  match line with
  | EmptyString => result ++ [current]
  | String char rest =>
      if Ascii.eqb char quote then
        match inQuotes, rest with
        | true, String next rest' =>
            if Ascii.eqb next quote
            then parseChars rest' result (pushChar current quote) inQuotes
            else parseChars rest result current (negb inQuotes)
        | _, _ => parseChars rest result current (negb inQuotes)
        end
      else if Ascii.eqb char comma && negb inQuotes
      then parseChars rest (result ++ [current]) EmptyString inQuotes
      else parseChars rest result (pushChar current char) inQuotes
  end.

Definition parseCSVLine (line : string) : list string :=
  parseChars line [] EmptyString false.

(** [str.includes(c)] for a string [c] of one character. *)
Fixpoint includesChar (c : Ascii.ascii) (str : string) : bool :=
  match str with
  | EmptyString => false
  | String x rest => Ascii.eqb x c || includesChar c rest
  end.

(** The number of occurrences of a character in a string. *)
Fixpoint countChar (c : Ascii.ascii) (str : string) : nat :=
  match str with
  | EmptyString => 0%nat
  | String x rest =>
      if Ascii.eqb x c then S (countChar c rest) else countChar c rest
  end.

(** [str.replace] with the global pattern of one double quote and the
    replacement of two: every double quote is doubled. *)
Fixpoint doubleQuotes (str : string) : string :=
  match str with
  | EmptyString => EmptyString
  | String x rest =>
      if Ascii.eqb x quote
      then String quote (String quote (doubleQuotes rest))
      else String x (doubleQuotes rest)
  end.

(** The argument of [escapeCSV]: [string | number | null | undefined]. *)
Inductive CellValue : Type :=
| VNull
| VUndefined
| VString (s : string)
| VNumber (n : num).

Section Converter.
(** [String(n)] for a number. *)
Variable numberToString : num -> string.

(** [String(value)] *)
Definition stringOfValue (value : CellValue) : string :=
  match value with
  | VNull => "null"
  | VUndefined => "undefined"
  | VString s => s
  | VNumber n => numberToString n
  end.

Definition escapeCSV (value : CellValue) : string :=
  match value with
  | VNull | VUndefined => EmptyString
  | _ =>
      let str := stringOfValue value in
      if includesChar comma str || includesChar quote str
         || includesChar lineFeed str
      then String quote (doubleQuotes str +:+ String quote EmptyString)
      else str
  end.

(** What a cell is read back as: the empty string for [null] and
    [undefined], the text of the value otherwise. *)
Definition cellText (value : CellValue) : string :=
  match value with
  | VNull | VUndefined => EmptyString
  | _ => stringOfValue value
  end.

End Converter.

(** [array.join(',')] for an array of strings. *)
Definition joinComma (fields : list string) : string :=
  String.concat (String comma EmptyString) fields.

(** What may follow a closing quote for it to close: the end of the line or
    a character that is not a quote. *)
Definition notQuoteHead (rest : string) : Prop :=
  match rest with
  | EmptyString => True
  | String next _ => next <> quote
  end.

(** A row of cells with a comma, a double quote and an absent value. *)
Definition sampleRow : list CellValue :=
  [VString "12"; VString "Drug, 5 mg"; VNull;
   VString (String quote "forte"); VString "100.5"; VString "V"].

(** ** [parseCSV] *)

Definition dot : Ascii.ascii := Eval cbv in Ascii.ascii_of_nat 46.

(** [content.split] at the line feeds: a string without a line feed is one
    line, the empty string included. *)
Fixpoint splitLinesFrom (content : string) (current : string) : list string :=
  match content with
  | EmptyString => [current]
  | String char rest =>
      if Ascii.eqb char lineFeed
      then current :: splitLinesFrom rest EmptyString
      else splitLinesFrom rest (pushChar current char)
  end.

Definition splitLines (content : string) : list string :=
  splitLinesFrom content EmptyString.

(** [str.replace(',', '.')]: the first comma, if there is one, becomes a
    dot. *)
Fixpoint replaceComma (str : string) : string :=
  match str with
  | EmptyString => EmptyString
  | String char rest =>
      if Ascii.eqb char comma then String dot rest
      else String char (replaceComma rest)
  end.

(** [x || 0] on a number: NaN and zero are falsy. *)
Definition orZero (x : num) : num :=
  if is_nan x || num_eqb x 0%num then 0%num else x.

(** The strings that are a [VENCategory]. *)
Definition venOfString (s : string) : option VENCategory :=
  if String.eqb s "V" then Some V
  else if String.eqb s "E" then Some E
  else if String.eqb s "N" then Some N
  else None.

(** The start of the line of totals. *)
Definition totalsPrefix : string := ",,Всего:".

Section Parser.
(** The built-in functions: [String.prototype.trim], [toUpperCase],
    [parseInt] in base 10 and [parseFloat]. *)
Variables trim toUpperCase : string -> string.
Variables parseInt parseFloat : string -> num.

(** The body of the loop over the lines: [None] stands for [continue],
    [Some] for the item pushed. *)
Definition parseRow (rawLine : string) : option DrugItem :=
  let line := trim rawLine in
  if String.eqb line EmptyString || String.prefix totalsPrefix line then None
  else
    match parseCSVLine line with
    | p0 :: p1 :: p2 :: p3 :: p4 :: p5 :: _ =>
        let code := parseInt p0 in
        let name := p1 in
        let unit := p2 in
        let quantity := orZero (parseFloat (replaceComma p3)) in
        let amount := orZero (parseFloat (replaceComma p4)) in
        let ven := toUpperCase (trim p5) in
        if is_nan code || String.eqb name EmptyString then None
        else
          match venOfString ven with
          | Some v =>
              Some {| code := code; name := name; unit_ := unit;
                      quantity := quantity; amount := amount; ven := v |}
          | None => None
          end
    | _ => None
    end.

(** The lines from the fifth on, in order. *)
Definition parseContent (content : string) : list DrugItem :=
  omap parseRow (drop 4 (splitLines content)).

(** The file system: [path.resolve], and [fs.readFileSync], which gives the
    text of the file or throws, here [None]. *)
Variable resolve : string -> string.
Variable readFileSync : string -> option string.

Definition parseCSV (filePath : string) : option (list DrugItem) :=
  let absolutePath := resolve filePath in
  content ← readFileSync absolutePath;
  Some (parseContent content).

End Parser.

(** An item as the parser lets it through. *)
Definition parsedItem (it : DrugItem) : Prop :=
  is_nan (code it) = false /\ name it <> EmptyString /\
  is_nan (quantity it) = false /\ is_nan (amount it) = false.

(** A file of four header lines and two data lines, and stand-ins for the
    built-in functions that are right on it: its fields have no space
    around them and are in upper case, its codes are 1 and its numbers are
    100. *)
Definition sampleFile : string :=
  String.concat (String lineFeed EmptyString)
    ["Ward 2025,,,,,"; "All goods,,,,,"; "Name,,Unit,Out,,"; ",,,Qty,Sum,";
     "1,Item,pack,100,100,V"; "1,Other,pack,100,100,E"].

Definition sampleRead (path : string) : option string :=
  if String.eqb path "ward.csv" then Some sampleFile else None.

Definition sampleParse (filePath : string) : option (list DrugItem) :=
  parseCSV (fun s => s) (fun s => s) (fun _ => Fin 1) (fun _ => Fin 100)
           (fun path => path) sampleRead filePath.

Definition sampleItems : list DrugItem :=
  [ {| code := Fin 1; name := "Item"; unit_ := "pack";
       quantity := Fin 100; amount := Fin 100; ven := V |};
    {| code := Fin 1; name := "Other"; unit_ := "pack";
       quantity := Fin 100; amount := Fin 100; ven := E |} ].

(** * Properties *)

(** ** Numbers *)

Lemma Qsign_Eq (q : Q) : Qsign q = Eq <-> q == 0.
Proof. unfold Qsign. symmetry. apply Qeq_alt. Qed.

Lemma Qsign_Lt (q : Q) : Qsign q = Lt <-> q < 0.
Proof. unfold Qsign. symmetry. apply Qlt_alt. Qed.

Lemma Qsign_Gt (q : Q) : Qsign q = Gt <-> 0 < q.
Proof. unfold Qsign. symmetry. apply Qgt_alt. Qed.

Lemma num_ltb_Fin (p q : Q) : (Fin p <? Fin q)%num = true <-> p < q.
Proof.
  simpl. rewrite Qlt_alt. destruct (p ?= q); split; congruence.
Qed.

Lemma num_leb_Fin (p q : Q) : (Fin p <=? Fin q)%num = true <-> p <= q.
Proof.
  simpl. rewrite Qle_alt. destruct (p ?= q); split; congruence.
Qed.

Lemma num_eq_Fin (p q : Q) : (Fin p === Fin q)%num <-> p == q.
Proof. unfold num_eq. simpl. apply Qeq_bool_iff. Qed.

(** Away from NaN the order is total: not below means above or equal. *)
Lemma num_ltb_leb (x y : num) :
  is_nan x = false -> is_nan y = false ->
  (x <? y)%num = negb (y <=? x)%num.
Proof.
  destruct x as [p| | |], y as [q| | |]; simpl; try congruence; intros _ _.
  rewrite <- (Qcompare_antisym q p). destruct (q ?= p); reflexivity.
Qed.

Lemma num_ltb_le (x y : num) :
  (x <? y)%num = true -> (x <=? y)%num = true.
Proof.
  destruct x as [p| | |], y as [q| | |]; simpl; try congruence.
  by destruct (p ?= q).
Qed.

Lemma num_leb_trans (x y z : num) :
  (x <=? y)%num = true -> (y <=? z)%num = true -> (x <=? z)%num = true.
Proof.
  destruct x as [p| | |], y as [q| | |], z as [r| | |];
    simpl; try congruence; intros H1 H2.
  apply (num_leb_Fin p r). apply Qle_trans with q; now apply num_leb_Fin.
Qed.

Lemma num_eq_leb (x y : num) : (x === y)%num -> (x <=? y)%num = true.
Proof.
  destruct x as [p| | |], y as [q| | |]; unfold num_eq; simpl;
    try congruence; intros H.
  apply (num_leb_Fin p q). apply Qeq_bool_iff in H. rewrite H. apply Qle_refl.
Qed.

Lemma num_eq_sym (x y : num) : (x === y)%num -> (y === x)%num.
Proof.
  destruct x as [p| | |], y as [q| | |]; unfold num_eq; simpl;
    try congruence.
  rewrite !Qeq_bool_iff. intros H. now symmetry.
Qed.

Lemma num_eq_trans (x y z : num) :
  (x === y)%num -> (y === z)%num -> (x === z)%num.
Proof.
  destruct x as [p| | |], y as [q| | |], z as [r| | |];
    unfold num_eq; simpl; try congruence.
  rewrite !Qeq_bool_iff. intros H1 H2. now rewrite H1.
Qed.

Lemma num_eq_not_nan (x y : num) : (x === y)%num -> is_nan x = false.
Proof. destruct x, y; unfold num_eq; simpl; congruence. Qed.

(** [b - a > 0] is [a < b]: the comparator of the sort reads the order of
    the amounts, and two equal infinities (difference NaN) count as
    equal. *)
Lemma num_sub_gtb (a b : num) :
  is_nan a = false -> is_nan b = false ->
  ((b - a) >? 0)%num = (a <? b)%num.
Proof.
  destruct a as [p| | |], b as [q| | |]; unfold num_gtb; simpl;
    try congruence; intros _ _.
  destruct (Qcompare_spec 0 (q + - p)) as [H|H|H],
           (Qcompare_spec p q) as [H'|H'|H']; try reflexivity; lra.
Qed.

Lemma num_add_Fin (p q : Q) : (Fin p + Fin q)%num = Fin (p + q).
Proof. reflexivity. Qed.

Lemma num_mul_Fin (p q : Q) : (Fin p * Fin q)%num = Fin (p * q).
Proof. reflexivity. Qed.

Lemma num_div_Fin (p q : Q) : ~ q == 0 -> (Fin p / Fin q)%num = Fin (p / q).
Proof.
  intros Hq. simpl. destruct (Qsign q) eqn:Hs; try reflexivity.
  by apply Qsign_Eq in Hs.
Qed.


Arguments num_add : simpl never.
Arguments num_sub : simpl never.
Arguments num_mul : simpl never.
Arguments num_div : simpl never.

(** ** The sort *)

Section SortFacts.
Context {T : Type} (compareFn : T -> T -> num).

Lemma sort_insert_perm (a : T) (l : list T) :
  sort_insert compareFn a l ≡ₚ a :: l.
Proof.
  induction l as [|b l IH]; simpl; [done|].
  destruct (compareFn a b >? 0)%num; [|done].
  rewrite IH. apply Permutation_swap.
Qed.

Lemma sort_perm (l : list T) : sort compareFn l ≡ₚ l.
Proof.
  induction l as [|a l IH]; simpl; [done|].
  rewrite sort_insert_perm. by rewrite IH.
Qed.

Lemma sort_length (l : list T) : length (sort compareFn l) = length l.
Proof. apply Permutation_length, sort_perm. Qed.

(** Stability, on a class of elements that the comparator never swaps:
    the members of the class keep the order they had. *)
Section Stable.
Context (P : T -> Prop) `{forall x, Decision (P x)}.
Hypothesis P_no_swap :
  forall a b, P a -> P b -> (compareFn a b >? 0)%num = false.

Lemma sort_insert_filter (a : T) (l : list T) :
  filter P (sort_insert compareFn a l) = filter P (a :: l).
Proof.
  induction l as [|b l IH]; simpl; [done|].
  destruct (compareFn a b >? 0)%num eqn:Hc; [|done].
  rewrite filter_cons, IH, !filter_cons.
  destruct (decide (P a)) as [Ha|Ha], (decide (P b)) as [Hb|Hb]; try done.
  rewrite (P_no_swap a b Ha Hb) in Hc. discriminate.
Qed.

Lemma sort_filter (l : list T) :
  filter P (sort compareFn l) = filter P l.
Proof.
  induction l as [|a l IH]; simpl; [done|].
  rewrite sort_insert_filter, !filter_cons. by rewrite IH.
Qed.

End Stable.
End SortFacts.


Lemma StronglySorted_lookup_lt {T : Type} (R : relation T) (l : list T)
    (i j : nat) (x y : T) :
  StronglySorted R l -> (i < j)%nat ->
  l !! i = Some x -> l !! j = Some y -> R x y.
Proof.
  intros Hs. revert i j x y.
  induction Hs as [|a l Hs IH Hall]; intros i j x y Hij Hi Hj.
  - by rewrite lookup_nil in Hi.
  - destruct j as [|j]; [lia|]. simpl in Hj.
    destruct i as [|i]; simpl in Hi.
    + injection Hi as <-. rewrite Forall_forall in Hall.
      apply Hall. apply list_elem_of_lookup. eauto.
    + apply (IH i j); [lia|done..].
Qed.

Lemma sort_insert_sorted (a : DrugItem) (l : list DrugItem) :
  amount_ok a -> Forall amount_ok l ->
  StronglySorted amount_ge l ->
  StronglySorted amount_ge (sort_insert compareAmount a l).
Proof.
  intros Ha Hl Hs. induction Hs as [|b l Hs IH Hall]; simpl.
  - repeat constructor.
  - apply Forall_cons in Hl as [Hb Hl].
    unfold compareAmount at 1. rewrite (num_sub_gtb _ _ Ha Hb).
    destruct (amount a <? amount b)%num eqn:Hlt.
    + constructor; [by apply IH|].
      assert (Hba : amount_ge b a).
      { by apply num_ltb_le. }
      rewrite Forall_forall in Hall |- *. intros x Hx.
      rewrite sort_insert_perm in Hx.
      apply elem_of_cons in Hx as [->|Hx]; [done|].
      by apply Hall.
    + assert (Hab : amount_ge a b).
      { unfold amount_ge. rewrite (num_ltb_leb _ _ Ha Hb) in Hlt.
        by destruct (amount b <=? amount a)%num. }
      constructor; [by constructor|].
      constructor; [done|].
      rewrite Forall_forall in Hall |- *. intros x Hx.
      unfold amount_ge in *. eapply num_leb_trans; [by apply Hall|done].
Qed.

Lemma sort_sorted (l : list DrugItem) :
  Forall amount_ok l -> StronglySorted amount_ge (sort compareAmount l).
Proof.
  induction l as [|a l IH]; intros Hl; simpl; [constructor|].
  apply Forall_cons in Hl as [Ha Hl].
  apply sort_insert_sorted; [done| |by apply IH].
  rewrite Forall_forall in Hl |- *. intros x Hx. apply Hl.
  by rewrite sort_perm in Hx.
Qed.

(** Items whose amounts are equal as numbers are never swapped. *)
Lemma compareAmount_equal (v : num) (a b : DrugItem) :
  (amount a === v)%num -> (amount b === v)%num ->
  (compareAmount a b >? 0)%num = false.
Proof.
  intros Ha Hb. unfold compareAmount.
  rewrite num_sub_gtb by (eapply num_eq_not_nan; eauto).
  rewrite num_ltb_leb by (eapply num_eq_not_nan; eauto).
  rewrite num_eq_leb; [done|].
  eapply num_eq_trans; [done|]. by apply num_eq_sym.
Qed.


(** ** [analyzeABC]: the shape of the output *)

Lemma mapWithState_length {S X Y : Type} (f : S -> X -> Y * S) (s : S)
    (l : list X) :
  length (mapWithState f s l) = length l.
Proof.
  revert s. induction l as [|x l IH]; intros s; simpl; [done|].
  destruct (f s x) as [y s']. simpl. by rewrite IH.
Qed.

Lemma analyzeItems_item (totalAmount cumulative : num) (l : list DrugItem) :
  map item (mapWithState (analyzeItem totalAmount) cumulative l) = l.
Proof.
  revert cumulative. induction l as [|x l IH]; intros c; simpl; [done|].
  by rewrite IH.
Qed.

Lemma analyzeABC_item (items : list DrugItem) :
  map item (analyzeABC items) = sort compareAmount items.
Proof. unfold analyzeABC. apply analyzeItems_item. Qed.

Lemma analyzeABC_length (items : list DrugItem) :
  length (analyzeABC items) = length items.
Proof.
  unfold analyzeABC. by rewrite mapWithState_length, sort_length.
Qed.

(** ** [analyzeABC]: tiers and cumulative percent *)


Lemma analyzeItems_lookup (totalAmount c : num) (l : list DrugItem)
    (i : nat) (x : AnalyzedItem) :
  let out := mapWithState (analyzeItem totalAmount) c l in
  out !! i = Some x ->
  let before := foldl num_add c (map percentOfTotal (take i out)) in
  abc x = tierOf before /\
  cumulativePercent x = (before + percentOfTotal x)%num.
Proof.
  revert c i. induction l as [|d l IH]; intros c i; simpl; [done|].
  destruct i as [|i]; simpl.
  - intros [= <-]. done.
  - intros Hx. by apply IH.
Qed.

(** Every output item carries the tier of the cumulative share before it,
    and the cumulative share up to and including it. *)
Lemma analyzeABC_lookup (items : list DrugItem) (i : nat) (x : AnalyzedItem) :
  analyzeABC items !! i = Some x ->
  abc x = tierOf (cumulativeBefore (analyzeABC items) i) /\
  cumulativePercent x =
    (cumulativeBefore (analyzeABC items) i + percentOfTotal x)%num.
Proof. unfold analyzeABC, cumulativeBefore. apply analyzeItems_lookup. Qed.

Lemma tierOf_A (c : num) : tierOf c = A <-> (c <? 80)%num = true.
Proof.
  unfold tierOf. destruct (c <? 80)%num; [done|].
  destruct (c <? 95)%num; split; congruence.
Qed.

Lemma num_ltb_80_95 (c : num) :
  (c <? 80)%num = true -> (c <? 95)%num = true.
Proof.
  destruct c as [q| | |]; simpl; try congruence.
  destruct (Qcompare_spec q 80), (Qcompare_spec q 95); try congruence; lra.
Qed.

Lemma tierOf_B (c : num) :
  tierOf c = B <-> (80 <=? c)%num = true /\ (c <? 95)%num = true.
Proof.
  unfold tierOf. destruct (c <? 80)%num eqn:H80.
  - split; [congruence|]. intros [Hle _].
    destruct c as [q| | |]; simpl in *; try congruence.
    destruct (Qcompare_spec 80 q), (Qcompare_spec q 80);
      try congruence; lra.
  - destruct (c <? 95)%num eqn:H95; [|split; [congruence|intros [_ ?]; congruence]].
    split; [intros _; split; [|done]|done].
    destruct c as [q| | |]; simpl in *; try congruence.
    destruct (Qcompare_spec 80 q), (Qcompare_spec q 80);
      try congruence; lra.
Qed.

(** Tier C is the [else] branch: it takes the shares from 95 on, and NaN,
    which is below nothing. *)
Lemma tierOf_C (c : num) :
  tierOf c = C <-> (95 <=? c)%num = true \/ is_nan c = true.
Proof.
  unfold tierOf. destruct (c <? 80)%num eqn:H80.
  - split; [congruence|]. intros [Hle|Hn].
    + apply num_ltb_80_95 in H80.
      destruct c as [q| | |]; simpl in *; try congruence.
      destruct (Qcompare_spec 95 q), (Qcompare_spec q 95);
        try congruence; lra.
    + destruct c; simpl in *; congruence.
  - destruct (c <? 95)%num eqn:H95.
    + split; [congruence|]. intros [Hle|Hn].
      * destruct c as [q| | |]; simpl in *; try congruence.
        destruct (Qcompare_spec 95 q), (Qcompare_spec q 95);
          try congruence; lra.
      * destruct c; simpl in *; congruence.
    + split; [intros _|done].
      destruct c as [q| | |]; simpl in *; try congruence; auto.
      left. destruct (Qcompare_spec 95 q), (Qcompare_spec q 95);
        try congruence; lra.
Qed.

(** Away from NaN the three tiers are the three intervals of the
    specification. *)
Lemma analyzeABC_tiers (items : list DrugItem) (i : nat) (x : AnalyzedItem) :
  analyzeABC items !! i = Some x ->
  let before := cumulativeBefore (analyzeABC items) i in
  is_nan before = false ->
  (abc x = A <-> (before <? 80)%num = true) /\
  (abc x = B <-> (80 <=? before)%num = true /\ (before <? 95)%num = true) /\
  (abc x = C <-> (before >=? 95)%num = true).
Proof.
  intros Hx before Hnan. destruct (analyzeABC_lookup _ _ _ Hx) as [-> _].
  fold before. split; [apply tierOf_A|]. split; [apply tierOf_B|].
  rewrite tierOf_C. unfold num_geb. rewrite Hnan. split; [|auto].
  intros [?|?]; [done|congruence].
Qed.

(** ** The first item *)




(** ** Zero denominators *)

(** C1.  Two items of amount 0: the total is 0, each share is 0/0 = NaN,
    and the second item, with NaN before it, falls through both tests to
    tier C although the cumulative share before it is not at least 95. *)
Theorem zero_total_second_item_is_tier_C :
  let out := analyzeABC [createItem 1 0 V; createItem 2 0 V] in
  map abc out = [A; C] /\
  cumulativeBefore out 1 = NaN /\
  (cumulativeBefore out 1 >=? 95)%num = false.
Proof. vm_compute. done. Qed.

(** C2.  A zero denominator gives NaN, not 0, in [analyzeABC],
    [getABCSummary], [getVENSummary] and [getABCVENMatrix]: for a single
    item of amount 0 every percentage of the amount is NaN, and for the
    empty batch the percentages of the count are NaN as well.  Only
    [getVENDistributionByABC], which tests its divisors, gives 0. *)
Theorem zero_denominator_gives_NaN :
  let out := analyzeABC [createItem 1 0 V] in
  map percentOfTotal out = [NaN] /\
  map Summary.percentAmount (getABCSummary out) = [NaN; NaN; NaN] /\
  map Summary.percentAmount (getVENSummary out) = [NaN; NaN; NaN] /\
  (forall abc ven,
     CategoryStats.percentAmount <$> cell (getABCVENMatrix out) abc ven
     = Some NaN) /\
  map Summary.percentCount (getABCSummary []) = [NaN; NaN; NaN] /\
  map Summary.percentCount (getVENSummary []) = [NaN; NaN; NaN] /\
  (forall abc ven,
     CategoryStats.percentCount <$> cell (getABCVENMatrix []) abc ven
     = Some NaN) /\
  (forall abc ven,
     CategoryStats.percentAmount (getVENDistributionByABC out abc ven)
     = 0%num /\
     CategoryStats.percentCount (getVENDistributionByABC [] abc ven)
     = 0%num).
Proof.
  cbv zeta. split; [vm_compute; reflexivity|].
  split; [vm_compute; reflexivity|].
  split; [vm_compute; reflexivity|].
  split; [intros [] []; vm_compute; reflexivity|].
  split; [vm_compute; reflexivity|].
  split; [vm_compute; reflexivity|].
  split; [intros [] []; vm_compute; reflexivity|].
  intros [] []; split; vm_compute; reflexivity.
Qed.

(** ** [analyzeABC] over the store *)

Lemma sort_map {X Y : Type} (f : X -> Y) (compareFn : Y -> Y -> num)
    (l : list X) :
  map f (sort (fun x y => compareFn (f x) (f y)) l) = sort compareFn (map f l).
Proof.
  induction l as [|a l IH]; simpl; [done|]. rewrite <- IH.
  generalize (sort (fun x y => compareFn (f x) (f y)) l). intros k.
  induction k as [|b k IHk]; simpl; [done|].
  destruct (compareFn (f a) (f b) >? 0)%num; simpl; [|done].
  by rewrite IHk.
Qed.

Lemma foldl_map {X Y S : Type} (g : S -> Y -> S) (f : X -> Y) (s : S)
    (l : list X) :
  foldl g s (map f l) = foldl (fun s x => g s (f x)) s l.
Proof. revert s. induction l as [|a l IH]; intros s; simpl; [done|]. apply IH. Qed.

Section StoreFacts.
Local Abbreviation analyzeItemV := analyzeItem.
Local Abbreviation analyzeABCV := analyzeABC.
Import Store.

Lemma bind_Some {X Y : Type} (c : M X) (k : X -> M Y) (h h1 : heap) (x : X) :
  c h = Some (x, h1) -> (c ≫= k) h = k x h1.
Proof. unfold mbind, M_bind. by intros ->. Qed.

Lemma bind_Some_inv {X Y : Type} (c : option X) (k : X -> option Y) (y : Y) :
  c ≫= k = Some y -> exists x, c = Some x /\ k x = Some y.
Proof. destruct c as [x|]; [eauto|done]. Qed.

Lemma forEach_readObject (h : heap) (refs : list loc) (objs : list object) :
  mapM (fun o => objects h !! o) refs = Some objs ->
  forEach readObject refs h = Some (objs, h).
Proof.
  revert objs. induction refs as [|r refs IH]; intros objs; simpl.
  - by intros [= <-].
  - intros Hm. apply bind_Some_inv in Hm as (o & Ho & Hm).
    apply bind_Some_inv in Hm as (os & Hos & [= <-]).
    rewrite (bind_Some _ _ h h o) by (unfold readObject; by rewrite Ho).
    by rewrite (bind_Some _ _ h h os (IH os Hos)).
Qed.

Lemma readElements_contents (h : heap) (a : loc) (objs : list object) :
  contents h a = Some objs -> readElements a h = Some (objs, h).
Proof.
  unfold contents, readElements. unfold mbind at 1, option_bind.
  destruct (arrays h !! a) as [refs|] eqn:Ha; [|done]. intros Hm.
  rewrite (bind_Some _ _ h h refs) by (unfold readArray; by rewrite Ha).
  by apply forEach_readObject.
Qed.

(** The pairs of a reference and the object it refers to can be read back
    in any arrangement. *)
Lemma mapM_pairs (objs : gmap loc object) (pairs : list (loc * object)) :
  Forall (fun p => objs !! p.1 = Some p.2) pairs ->
  mapM (fun o => objs !! o) (map fst pairs) = Some (map snd pairs).
Proof.
  intros H. apply mapM_Some. induction H as [|p l Hp Hl IH]; simpl;
    by constructor.
Qed.

Lemma zip_pairs (objs : gmap loc object) (refs : list loc)
    (os : list object) :
  mapM (fun o => objs !! o) refs = Some os ->
  Forall (fun p => objs !! p.1 = Some p.2) (zip refs os).
Proof.
  intros H. apply mapM_Some in H.
  induction H as [|r o refs os Hr H IH]; simpl; by constructor.
Qed.

(** The callbacks of [map] allocate; they overwrite nothing, and the new
    array refers to the items that [analyzeItem] computes from the
    values. *)
Lemma forEachWithState_analyzeItem (totalAmount c : num)
    (objs : list object) (h : heap) :
  exists (out : list loc) (h' : heap),
    forEachWithState (Store.analyzeItem totalAmount) c objs h
      = Some (out, h') /\
    arrays h' = arrays h /\
    objects h ⊆ objects h' /\
    mapM (fun o => objects h' !! o) out
      = Some (map OAnalyzedItem
                (mapWithState (analyzeItemV totalAmount) c
                              (map asDrugItem objs))).
Proof.
  revert c h. induction objs as [|o objs IH]; intros c h; simpl.
  - exists [], h. done.
  - set (r := analyzeItemV totalAmount c (asDrugItem o)).
    set (l := fresh (dom (objects h))).
    set (h1 := mkHeap (arrays h) (<[l := OAnalyzedItem r.1]> (objects h))).
    destruct (IH r.2 h1) as (out & h' & Hrun & Harr & Hsub & Hout).
    exists (l :: out), h'.
    assert (Hfresh : objects h !! l = None).
    { apply not_elem_of_dom, is_fresh. }
    split; [|split; [done|split]].
    + rewrite (bind_Some _ _ h h1 (l, r.2)) by reflexivity.
      by rewrite (bind_Some _ _ h1 h' out Hrun).
    + etrans; [|exact Hsub]. simpl. by apply insert_subseteq.
    + apply mapM_Some. simpl. constructor.
      * exact (lookup_weaken _ _ l (OAnalyzedItem r.1)
                 (lookup_insert_eq _ _ _) Hsub).
      * apply mapM_Some. exact Hout.
Qed.

Lemma Forall_sort {X : Type} (compareFn : X -> X -> num) (P : X -> Prop)
    (l : list X) :
  Forall P l -> Forall P (sort compareFn l).
Proof.
  rewrite !Forall_forall. intros H x Hx. apply H. by rewrite sort_perm in Hx.
Qed.

(** The run of [analyzeABC] on an array whose elements can all be read: it
    ends, the new array holds what [analyzeABC] on values computes, and
    the store it started from is still there. *)
Lemma analyzeABC_run (h : heap) (items : loc) (objs : list object) :
  contents h items = Some objs ->
  exists (r : loc) (h' : heap),
    Store.analyzeABC items h = Some (r, h') /\
    contents h' r
      = Some (map OAnalyzedItem (analyzeABCV (map asDrugItem objs))) /\
    preserved h h'.
Proof.
  unfold contents at 1. intros Hc.
  apply bind_Some_inv in Hc as (refs & Hitems & Hobjs).
  set (s := fresh (dom (arrays h))).
  assert (Hs : arrays h !! s = None) by apply not_elem_of_dom, is_fresh.
  set (h1 := mkHeap (<[s := refs]> (arrays h)) (objects h)).
  set (compareFn := fun a b : object =>
         (amount (asDrugItem b) - amount (asDrugItem a))%num).
  set (pairs := sort (fun x y : loc * object => compareFn x.2 y.2)
                     (zip refs objs)).
  set (h2 := mkHeap (<[s := map fst pairs]> (arrays h1)) (objects h)).
  assert (Hsort : sortInPlace compareFn s h1 = Some (tt, h2)).
  { unfold sortInPlace.
    rewrite (bind_Some _ _ h1 h1 refs)
      by (unfold readArray; simpl; by rewrite lookup_insert_eq).
    rewrite (bind_Some _ _ h1 h1 objs) by by apply forEach_readObject.
    unfold writeArray. simpl. by rewrite lookup_insert_eq. }
  assert (Hc2 : contents h2 s = Some (map snd pairs)).
  { unfold contents. simpl. rewrite lookup_insert_eq. simpl.
    apply mapM_pairs, Forall_sort. by apply zip_pairs. }
  assert (Hview : map asDrugItem (map snd pairs)
                  = sort compareAmount (map asDrugItem objs)).
  { rewrite map_map. unfold pairs.
    rewrite (sort_map (fun p : loc * object => asDrugItem p.2) compareAmount).
    rewrite <- (map_map snd asDrugItem).
    replace (map snd (zip refs objs)) with objs; [done|].
    symmetry. apply (snd_zip refs objs). apply length_mapM in Hobjs. lia. }
  set (totalAmount :=
         foldl (fun sum it => (sum + amount (asDrugItem it))%num) 0%num
               (map snd pairs)).
  assert (Htotal : totalAmount
                   = totalOf amount (sort compareAmount (map asDrugItem objs))).
  { unfold totalAmount, totalOf. rewrite <- Hview.
    rewrite (foldl_map (sumAmount amount) asDrugItem). reflexivity. }
  destruct (forEachWithState_analyzeItem totalAmount 0%num (map snd pairs) h2)
    as (out & h3 & Hrun & Harr & Hsub & Hout).
  set (r := fresh (dom (arrays h3))).
  assert (Hr : arrays h3 !! r = None) by apply not_elem_of_dom, is_fresh.
  exists r, (mkHeap (<[r := out]> (arrays h3)) (objects h3)).
  split; [|split].
  - unfold Store.analyzeABC.
    rewrite (bind_Some _ _ h h refs) by (unfold readArray; by rewrite Hitems).
    rewrite (bind_Some _ _ h h1 s) by reflexivity.
    rewrite (bind_Some _ _ h1 h2 tt Hsort).
    rewrite (bind_Some _ _ h2 h2 totalAmount).
    2:{ unfold reduce.
        by rewrite (bind_Some _ _ h2 h2 _ (readElements_contents _ _ _ Hc2)). }
    rewrite (bind_Some _ _ h2 h2 _ (readElements_contents _ _ _ Hc2)).
    by rewrite (bind_Some _ _ h2 h3 out Hrun).
  - unfold contents. simpl. rewrite lookup_insert_eq. simpl.
    rewrite Hout. unfold analyzeABC. by rewrite Hview, Htotal.
  - split; simpl; [|done].
    etrans; [|by apply insert_subseteq].
    rewrite Harr. simpl. rewrite insert_insert_eq. by apply insert_subseteq.
Qed.

End StoreFacts.

Lemma contents_preserved (h h' : Store.heap) (a : Store.loc)
    (objs : list Store.object) :
  Store.preserved h h' ->
  Store.contents h a = Some objs -> Store.contents h' a = Some objs.
Proof.
  intros [Ha Ho]. unfold Store.contents. intros Hc.
  apply bind_Some_inv in Hc as (refs & Hrefs & Hobjs).
  rewrite (lookup_weaken _ _ _ _ Hrefs Ha). simpl.
  apply mapM_Some. apply mapM_Some in Hobjs.
  eapply Forall2_impl; [exact Hobjs|]. intros r o Hr. simpl in *.
  by apply (lookup_weaken _ _ _ _ Hr Ho).
Qed.

(** ** Order of the output *)

(** C4.  [analyzeABC], run on an array of the store whose elements carry
    amounts that are numbers (not NaN), ends with a new array [out] that
    is the [analyzeABC] of the values; [out] is in non-increasing order of
    amount; for every amount, the items of that amount stand in [out] in
    the order they had in the input; and the store the call started from
    is unchanged, so that the input array still reads as the same
    objects. *)
Theorem analyzeABC_sorted_stable_input_unmodified
    (h : Store.heap) (items : Store.loc) (objs : list Store.object) :
  Store.contents h items = Some objs ->
  Forall (fun o => amount_ok (Store.asDrugItem o)) objs ->
  exists (r : Store.loc) (h' : Store.heap) (out : list AnalyzedItem),
    Store.analyzeABC items h = Some (r, h') /\
    Store.contents h' r = Some (map Store.OAnalyzedItem out) /\
    out = analyzeABC (map Store.asDrugItem objs) /\
    (forall (i j : nat) (x y : AnalyzedItem),
       (i < j)%nat -> out !! i = Some x -> out !! j = Some y ->
       (amount y <=? amount x)%num = true) /\
    (forall v : num,
       filter (fun d => amount d === v)%num (map item out)
       = filter (fun d => amount d === v)%num (map Store.asDrugItem objs)) /\
    Store.preserved h h' /\
    Store.contents h' items = Some objs.
Proof.
  intros Hc Hok.
  destruct (analyzeABC_run h items objs Hc) as (r & h' & Hrun & Hout & Hpres).
  exists r, h', (analyzeABC (map Store.asDrugItem objs)).
  split; [done|]. split; [done|]. split; [done|].
  assert (Hok' : Forall amount_ok (map Store.asDrugItem objs)).
  { clear -Hok. induction Hok; simpl; constructor; auto. }
  split; [|split; [|split]].
  - intros i j x y Hij Hx Hy.
    apply (StronglySorted_lookup_lt amount_ge
             (map item (analyzeABC (map Store.asDrugItem objs))) i j);
      [|done|..].
    + rewrite analyzeABC_item. by apply sort_sorted.
    + change (map item ?l) with (item <$> l).
      by rewrite list_lookup_fmap, Hx.
    + change (map item ?l) with (item <$> l).
      by rewrite list_lookup_fmap, Hy.
  - intros v. rewrite analyzeABC_item. apply sort_filter.
    intros a b. apply compareAmount_equal.
  - done.
  - by apply (contents_preserved h h').
Qed.

(** The run on the store of two items. *)
Lemma analyzeABC_two_items_store :
  exists (r : Store.loc) (h' : Store.heap) (out : list AnalyzedItem),
    Store.analyzeABC 1%positive twoItemsStore = Some (r, h') /\
    Store.contents h' r = Some (map Store.OAnalyzedItem out) /\
    out = analyzeABC [createItem 1 100 V; createItem 2 300 V] /\
    (forall (i j : nat) (x y : AnalyzedItem),
       (i < j)%nat -> out !! i = Some x -> out !! j = Some y ->
       (amount y <=? amount x)%num = true) /\
    (forall v : num,
       filter (fun d => amount d === v)%num (map item out)
       = filter (fun d => amount d === v)%num
           [createItem 1 100 V; createItem 2 300 V]) /\
    Store.preserved twoItemsStore h' /\
    Store.contents h' 1%positive
      = Some [Store.ODrugItem (createItem 1 100 V);
              Store.ODrugItem (createItem 2 300 V)].
Proof.
  apply (analyzeABC_sorted_stable_input_unmodified twoItemsStore 1%positive
           [Store.ODrugItem (createItem 1 100 V);
            Store.ODrugItem (createItem 2 300 V)]).
  - vm_compute. reflexivity.
  - repeat constructor.
Defined.

(** ** Sums of finite numbers *)

Lemma foldl_Qplus (a : Q) (l : list Q) : foldl Qplus a l == a + Qsum l.
Proof.
  revert a. induction l as [|q l IH]; intros a; simpl; [lra|].
  rewrite IH. lra.
Qed.

Lemma foldl_num_add_Fin (a : Q) (l : list Q) :
  foldl num_add (Fin a) (map Fin l) = Fin (foldl Qplus a l).
Proof.
  revert a. induction l as [|q l IH]; intros a; simpl; [done|].
  by rewrite num_add_Fin, IH.
Qed.


Lemma is_finite_Fin (x : num) : is_finite x = true -> x = Fin (Qval x).
Proof. by destruct x. Qed.

Section Totals.
Context {X : Type} (amt : X -> num).

Lemma foldl_sumAmount_finite (a : Q) (l : list X) :
  Forall (fun x => is_finite (amt x) = true) l ->
  foldl (sumAmount amt) (Fin a) l
  = Fin (foldl Qplus a (map (fun x => Qval (amt x)) l)).
Proof.
  intros H. revert a. induction H as [|x l Hx Hl IH]; intros a; simpl; [done|].
  unfold sumAmount at 2. rewrite (is_finite_Fin _ Hx), num_add_Fin.
  rewrite IH. simpl. done.
Qed.

(** The total of finite amounts is finite, and it is their sum. *)
Lemma totalOf_finite (l : list X) :
  Forall (fun x => is_finite (amt x) = true) l ->
  exists q, totalOf amt l = Fin q /\
            q == Qsum (map (fun x => Qval (amt x)) l).
Proof.
  intros H. eexists. split; [by apply foldl_sumAmount_finite|].
  rewrite foldl_Qplus. lra.
Qed.

End Totals.

(** ** Partitions by a key *)

Section Partition.
Context {X K : Type} `{EqDecision K} (key : X -> K).

Lemma bucket_cons (k : K) (x : X) (l : list X) :
  bucket key k (x :: l) = if decide (key x = k) then x :: bucket key k l else bucket key k l.
Proof. unfold bucket. by rewrite filter_cons. Qed.


Lemma length_buckets (ks : list K) (l : list X) :
  NoDup ks -> Forall (fun x => key x ∈ ks) l ->
  length l = sum_list (map (fun k => length (bucket key k l)) ks).
Proof.
  intros Hnd Hl. induction Hl as [|x l Hx Hl IH]; simpl.
  - clear Hnd. induction ks as [|k ks IHk]; simpl; [done|]. by rewrite <- IHk.
  - rewrite IH. clear IH Hl. revert Hx.
    induction Hnd as [|k ks Hk Hnd IHk]; intros Hx; [by apply elem_of_nil in Hx|].
    simpl. rewrite bucket_cons.
    destruct (decide (key x = k)) as [<-|Hne].
    + simpl. assert (Hrest : forall ks', key x ∉ ks' ->
          sum_list (map (fun k => length (bucket key k (x :: l))) ks')
          = sum_list (map (fun k => length (bucket key k l)) ks')).
      { clear. intros ks' Hks'. induction ks' as [|k' ks' IH']; simpl; [done|].
        apply not_elem_of_cons in Hks' as [Hne Hks'].
        rewrite bucket_cons, decide_False by done. by rewrite IH'. }
      by rewrite Hrest.
    + apply elem_of_cons in Hx as [Hx|Hx]; [done|].
      rewrite <- IHk by done. lia.
Qed.

End Partition.

(** ** The summaries *)

Section SummaryFacts.
Context {K : Type} `{EqDecision K} (key : AnalyzedItem -> K).

Lemma addToGroup_lookup (groups : K -> Group.t) (x : AnalyzedItem) (k : K) :
  addToGroup key groups x k
  = if decide (key x = k)
    then Group.mk (S (Group.count (groups k)))
                  (Group.amount (groups k) + amount x)
    else groups k.
Proof.
  unfold addToGroup. destruct (decide (key x = k)) as [<-|Hne].
  - by rewrite fn_lookup_alter.
  - by rewrite fn_lookup_alter_ne.
Qed.

(** After the loop, the group of [k] has counted the items of key [k] and
    added their amounts, in the order of the batch. *)
Lemma addToGroup_fold (groups : K -> Group.t) (l : list AnalyzedItem) (k : K) :
  foldl (addToGroup key) groups l k
  = Group.mk (Group.count (groups k) + length (bucket key k l))
             (foldl (sumAmount (fun it : AnalyzedItem => amount it))
                    (Group.amount (groups k)) (bucket key k l)).
Proof.
  revert groups. induction l as [|x l IH]; intros groups; simpl.
  - rewrite Nat.add_0_r. by destruct (groups k).
  - rewrite IH, bucket_cons, addToGroup_lookup.
    destruct (decide (key x = k)) as [<-|Hne]; [|done].
    simpl. f_equal. lia.
Qed.

Lemma summarize_spec (categories : list K) (l : list AnalyzedItem) :
  summarize key categories l
  = map (fun k =>
           let count := length (bucket key k l) in
           let amt := totalOf (fun it : AnalyzedItem => amount it)
                              (bucket key k l) in
           Summary.mk k count amt
             ((of_nat count / of_nat (length l)) * 100)%num
             ((amt / totalOf (fun it : AnalyzedItem => amount it) l) * 100)%num)
        categories.
Proof.
  unfold summarize. apply map_ext. intros k. unfold summaryOf.
  by rewrite addToGroup_fold.
Qed.

Lemma summarize_categories (categories : list K) (l : list AnalyzedItem) :
  map Summary.category (summarize key categories l) = categories.
Proof. rewrite summarize_spec, map_map. simpl. apply map_id. Qed.




End SummaryFacts.

Lemma ABC_all (k : ABCCategory) : k ∈ [A; B; C].
Proof. destruct k; set_solver. Qed.

Lemma VEN_all (k : VENCategory) : k ∈ [V; E; N].
Proof. destruct k; set_solver. Qed.

Lemma ABC_NoDup : NoDup [A; B; C].
Proof. compute_done. Qed.

Lemma VEN_NoDup : NoDup [V; E; N].
Proof. compute_done. Qed.



(** ** The matrix *)

Lemma cell_matrixInit (a : ABCCategory) (v : VENCategory) :
  cell matrixInit a v = Some zeroStats.
Proof. destruct a, v; reflexivity. Qed.

Lemma cell_updateCell (f : CategoryStats.t -> CategoryStats.t)
    (a a' : ABCCategory) (v v' : VENCategory) (m : ABCVENMatrix) :
  cell (updateCell f a v m) a' v'
  = if decide ((a, v) = (a', v')) then f <$> cell m a' v' else cell m a' v'.
Proof.
  unfold cell, updateCell. destruct (decide (a = a')) as [<-|Ha].
  - rewrite lookup_alter_eq. destruct (m !! a) as [row|]; simpl.
    + destruct (decide (v = v')) as [<-|Hv].
      * rewrite lookup_alter_eq. by rewrite decide_True.
      * rewrite lookup_alter_ne by done. rewrite decide_False; [done|congruence].
    + by destruct (decide _).
  - rewrite lookup_alter_ne by done. rewrite decide_False; [done|congruence].
Qed.

Lemma accumulate_fold (c : CategoryStats.t) (l : list AnalyzedItem) :
  foldl (fun c it => accumulate it c) c l
  = CategoryStats.mk
      (CategoryStats.count c + length l)
      (foldl (sumAmount (fun it : AnalyzedItem => amount it))
             (CategoryStats.amount c) l)
      (CategoryStats.percentCount c) (CategoryStats.percentAmount c).
Proof.
  revert c. induction l as [|x l IH]; intros c; simpl.
  - rewrite Nat.add_0_r. by destruct c.
  - rewrite IH. simpl. f_equal. lia.
Qed.

(** The loop over the items, seen from one cell: the cell accumulates the
    items of its tier and criticality. *)
Lemma cell_accumulate (m : ABCVENMatrix) (l : list AnalyzedItem)
    (a : ABCCategory) (v : VENCategory) :
  cell (foldl (fun matrix (it : AnalyzedItem) =>
                 updateCell (accumulate it) (abc it) (ven it) matrix) m l) a v
  = (fun c => foldl (fun c it => accumulate it c) c (bucket abcven (a, v) l))
      <$> cell m a v.
Proof.
  revert m. induction l as [|x l IH]; intros m; simpl.
  - by destruct (cell m a v).
  - rewrite IH, cell_updateCell, bucket_cons. unfold abcven at 2.
    destruct (decide (_ = _)); [|done]. by destruct (cell m a v).
Qed.

(** The loops over the nine keys, seen from one cell: [f] is applied to
    it once. *)
Lemma cell_forAll (f : CategoryStats.t -> CategoryStats.t) (m : ABCVENMatrix)
    (a : ABCCategory) (v : VENCategory) :
  cell (foldl (fun matrix abc =>
                 foldl (fun matrix ven => updateCell f abc ven matrix)
                       matrix [V; E; N])
              m [A; B; C]) a v
  = f <$> cell m a v.
Proof.
  simpl. rewrite !cell_updateCell.
  destruct a, v; repeat (first [rewrite decide_True by done
                               |rewrite decide_False by done]); done.
Qed.

Lemma getABCVENMatrix_cell (l : list AnalyzedItem)
    (a : ABCCategory) (v : VENCategory) :
  cell (getABCVENMatrix l) a v
  = Some (matrixPercent (length l)
            (totalOf (fun it : AnalyzedItem => amount it) l)
            (CategoryStats.mk
               (length (bucket abcven (a, v) l))
               (totalOf (fun it : AnalyzedItem => amount it)
                        (bucket abcven (a, v) l))
               0%num 0%num)).
Proof.
  unfold getABCVENMatrix. rewrite cell_forAll, cell_accumulate, cell_matrixInit.
  simpl. by rewrite accumulate_fold.
Qed.

(** Every one of the nine cells is there, whatever the batch. *)
Lemma matrix_cell_present (l : list AnalyzedItem)
    (a : ABCCategory) (v : VENCategory) :
  is_Some (cell (getABCVENMatrix l) a v).
Proof. rewrite getABCVENMatrix_cell. eauto. Qed.




Lemma Qsum_scale (T : Q) (qs : list Q) :
  ~ T == 0 ->
  Qsum (map (fun q => q / T * 100) qs) == Qsum qs / T * 100.
Proof.
  intros HT. induction qs as [|q qs IH]; simpl.
  - field. done.
  - rewrite IH. field. done.
Qed.






(** ** The distribution within the tiers *)

Lemma pushGroup_fold (abcGroups : ABCCategory -> list AnalyzedItem)
    (l : list AnalyzedItem) (a : ABCCategory) :
  foldl pushGroup abcGroups l a = abcGroups a ++ bucket abc a l.
Proof.
  revert abcGroups. induction l as [|x l IH]; intros G; simpl.
  - by rewrite app_nil_r.
  - rewrite IH, bucket_cons. unfold pushGroup.
    destruct (decide (abc x = a)) as [<-|Hne].
    + rewrite fn_lookup_alter. by rewrite <- app_assoc.
    + by rewrite fn_lookup_alter_ne.
Qed.

Lemma groupBy_spec (l : list AnalyzedItem) (a : ABCCategory) :
  groupBy l a = bucket abc a l.
Proof. unfold groupBy. by rewrite pushGroup_fold. Qed.

Lemma updateDist_lookup (f : CategoryStats.t -> CategoryStats.t)
    (a a' : ABCCategory) (v v' : VENCategory) (result : Distribution) :
  updateDist f a v result a' v'
  = if decide ((a, v) = (a', v')) then f (result a' v') else result a' v'.
Proof.
  unfold updateDist. destruct (decide (a = a')) as [<-|Ha].
  - rewrite fn_lookup_alter. destruct (decide (v = v')) as [<-|Hv].
    + rewrite fn_lookup_alter. by rewrite decide_True.
    + rewrite fn_lookup_alter_ne by done. rewrite decide_False; [done|congruence].
  - rewrite fn_lookup_alter_ne by done. rewrite decide_False; [done|congruence].
Qed.

Lemma dist_accumulate (result : Distribution) (g : list AnalyzedItem)
    (a a' : ABCCategory) (v : VENCategory) :
  foldl (fun result (it : AnalyzedItem) =>
           updateDist (accumulate it) a (ven it) result) result g a' v
  = if decide (a = a')
    then foldl (fun c it => accumulate it c) (result a' v)
               (bucket (fun it : AnalyzedItem => ven it) v g)
    else result a' v.
Proof.
  revert result. induction g as [|x g IH]; intros result; simpl.
  - by destruct (decide _).
  - rewrite IH, updateDist_lookup, bucket_cons.
    destruct (decide (a = a')) as [<-|Ha]; [|by rewrite decide_False by congruence].
    destruct (decide (ven x = v)) as [<-|Hv].
    + by rewrite decide_True.
    + by rewrite decide_False by congruence.
Qed.

Lemma dist_forAll (f : CategoryStats.t -> CategoryStats.t)
    (result : Distribution) (a a' : ABCCategory) (v : VENCategory) :
  foldl (fun result ven => updateDist f a ven result) result [V; E; N] a' v
  = if decide (a = a') then f (result a' v) else result a' v.
Proof.
  simpl. rewrite !updateDist_lookup.
  destruct a, a', v; repeat (first [rewrite decide_True by done
                                   |rewrite decide_False by done]); done.
Qed.

Lemma distributeTier_lookup (abcGroups : ABCCategory -> list AnalyzedItem)
    (result : Distribution) (a a' : ABCCategory) (v : VENCategory) :
  distributeTier abcGroups result a a' v
  = if decide (a = a')
    then distPercent (length (abcGroups a))
           (totalOf (fun it : AnalyzedItem => amount it) (abcGroups a))
           (foldl (fun c it => accumulate it c) (result a' v)
                  (bucket (fun it : AnalyzedItem => ven it) v (abcGroups a)))
    else result a' v.
Proof.
  unfold distributeTier. rewrite dist_forAll, dist_accumulate.
  by destruct (decide (a = a')).
Qed.

(** Each cell of the distribution, in closed form: the items of the tier
    that carry the criticality, counted and added, against the count and
    the amount of the tier. *)
Lemma getVENDistributionByABC_cell (l : list AnalyzedItem)
    (a : ABCCategory) (v : VENCategory) :
  let g := bucket abc a l in
  let c := bucket (fun it : AnalyzedItem => ven it) v g in
  getVENDistributionByABC l a v
  = distPercent (length g) (totalOf (fun it : AnalyzedItem => amount it) g)
      (CategoryStats.mk (length c)
         (totalOf (fun it : AnalyzedItem => amount it) c) 0%num 0%num).
Proof.
  intros g c. unfold getVENDistributionByABC. simpl.
  rewrite !distributeTier_lookup, !groupBy_spec.
  destruct a; repeat (first [rewrite decide_True by done
                            |rewrite decide_False by done]);
    by rewrite accumulate_fold.
Qed.

Lemma of_nat_gtb (n : nat) :
  (of_nat n >? 0)%num = match n with O => false | S _ => true end.
Proof. by destruct n. Qed.






(** C10.  A tier with at least one item whose amounts add up to 0: the
    guard on [groupAmount] sets the [percentAmount] of its three cells to
    0, while the guard on [groupCount] lets their [percentCount] be the
    count of the cell over the count of the tier, times 100, the count of
    the cell being the number of items of the tier with its
    criticality. *)
Theorem zero_group_amount (analyzedItems : list AnalyzedItem)
    (tier : ABCCategory) (criticality : VENCategory) :
  let groupItems := groupBy analyzedItems tier in
  let groupCount := length groupItems in
  let groupAmount :=
    totalOf (fun it : AnalyzedItem => amount it) groupItems in
  let c := getVENDistributionByABC analyzedItems tier criticality in
  (groupCount > 0)%nat -> (groupAmount === 0)%num ->
  CategoryStats.percentAmount c = 0%num /\
  CategoryStats.percentCount c
  = ((of_nat (CategoryStats.count c) / of_nat groupCount) * 100)%num /\
  CategoryStats.count c
  = length (bucket (fun it : AnalyzedItem => ven it) criticality groupItems).
Proof.
  intros g groupCount groupAmount c Hpos Hzero. unfold c.
  rewrite getVENDistributionByABC_cell. cbv zeta. rewrite <- groupBy_spec.
  fold g groupAmount groupCount. simpl. split; [|split; [|done]].
  - destruct groupAmount as [q| | |]; try discriminate.
    apply num_eq_Fin in Hzero. unfold num_gtb. simpl.
    destruct (Qcompare_spec 0 q); try reflexivity. lra.
  - rewrite of_nat_gtb. destruct groupCount eqn:E; [lia|done].
Qed.

(** Tier A of the batch of one item of amount 0. *)
Lemma zero_group_amount_zeroBatch :
  let groupItems := groupBy zeroBatch A in
  let groupCount := length groupItems in
  let groupAmount :=
    totalOf (fun it : AnalyzedItem => amount it) groupItems in
  let c := getVENDistributionByABC zeroBatch A V in
  ((groupCount > 0)%nat /\ (groupAmount === 0)%num) /\
  CategoryStats.percentAmount c = 0%num /\
  CategoryStats.percentCount c
  = ((of_nat (CategoryStats.count c) / of_nat groupCount) * 100)%num /\
  CategoryStats.count c = 1%nat.
Proof.
  split.
  - split; [vm_compute; lia|vm_compute; reflexivity].
  - apply (zero_group_amount zeroBatch A V);
      [vm_compute; lia|vm_compute; reflexivity].
Defined.

(** ** The cumulative percent *)

Lemma Qsum_perm (l l' : list Q) : l ≡ₚ l' -> Qsum l == Qsum l'.
Proof.
  induction 1 as [|x l l' _ IH|x y l|l l' l'' _ IH1 _ IH2]; simpl.
  - reflexivity.
  - by rewrite IH.
  - lra.
  - by rewrite IH1.
Qed.

Lemma Qsum_nonneg (l : list Q) : Forall (fun q => 0 <= q) l -> 0 <= Qsum l.
Proof. induction 1 as [|q l Hq _ IH]; simpl; lra. Qed.

Lemma Qsum_take_mono (l : list Q) (i j : nat) :
  Forall (fun q => 0 <= q) l -> (i <= j)%nat ->
  Qsum (take i l) <= Qsum (take j l).
Proof.
  intros Hl. revert i j. induction Hl as [|q l Hq Hl IH]; intros i j Hij.
  - rewrite !take_nil. lra.
  - destruct i as [|i]; simpl.
    + apply Qsum_nonneg. apply Forall_take. by constructor.
    + destruct j as [|j]; [lia|]. simpl.
      specialize (IH i j ltac:(lia)). lra.
Qed.


Lemma totalOf_sort (items : list DrugItem) :
  Forall (fun it => is_finite (amount it) = true) items ->
  exists T T',
    totalOf amount items = Fin T /\
    totalOf amount (sort compareAmount items) = Fin T' /\
    T' == T /\
    T' == Qsum (map (fun it => Qval (amount it)) (sort compareAmount items)).
Proof.
  intros Hfin.
  destruct (totalOf_finite amount items Hfin) as (T & HT & HTs).
  destruct (totalOf_finite amount (sort compareAmount items)
              (Forall_sort _ _ _ Hfin)) as (T' & HT' & HTs').
  exists T, T'. repeat split; try done.
  rewrite HTs, HTs'. apply Qsum_perm. apply Permutation_map, sort_perm.
Qed.




(** ** The shape of the aggregates *)

Lemma getABCSummary_categories (l : list AnalyzedItem) :
  map Summary.category (getABCSummary l) = [A; B; C].
Proof. apply summarize_categories. Qed.

Lemma getVENSummary_categories (l : list AnalyzedItem) :
  map Summary.category (getVENSummary l) = [V; E; N].
Proof. apply summarize_categories. Qed.

Lemma bucket_none {X K : Type} `{EqDecision K} (key : X -> K) (k : K)
    (l : list X) :
  Forall (fun x => key x <> k) l -> bucket key k l = [].
Proof.
  induction 1 as [|x l Hx _ IH]; [done|].
  by rewrite bucket_cons, decide_False.
Qed.

(** Three entries in the order A, B, C and three in the order V, E, N,
    whatever the batch, and the nine cells of the matrix.  For a batch
    with finite amounts and a total amount that is not zero, in which no
    item is in tier B, the entry of tier B is all zeros. *)
Lemma summaries_shape (analyzedItems : list AnalyzedItem) :
  (exists a b c : ABCSummary,
     getABCSummary analyzedItems = [a; b; c] /\
     Summary.category a = A /\ Summary.category b = B /\
     Summary.category c = C /\
     (Forall finite_amount analyzedItems ->
      ~ (totalOf (fun it : AnalyzedItem => amount it) analyzedItems === 0)%num ->
      Forall (fun it => abc it <> B) analyzedItems ->
      Summary.count b = 0%nat /\ Summary.amount b = 0%num /\
      (Summary.percentCount b === 0)%num /\
      (Summary.percentAmount b === 0)%num)) /\
  (exists v e n : VENSummary,
     getVENSummary analyzedItems = [v; e; n] /\
     Summary.category v = V /\ Summary.category e = E /\
     Summary.category n = N) /\
  (forall (abc : ABCCategory) (ven : VENCategory),
     is_Some (cell (getABCVENMatrix analyzedItems) abc ven)).
Proof.
  split; [|split].
  - unfold getABCSummary. rewrite summarize_spec. cbn [map].
    eexists _, _, _. split; [reflexivity|]. repeat (split; [reflexivity|]).
    intros Hfin Hnz HnoB. cbn [Summary.count Summary.amount
      Summary.percentCount Summary.percentAmount].
    rewrite (bucket_none abc B analyzedItems HnoB).
    destruct (totalOf_finite (fun it : AnalyzedItem => amount it)
                analyzedItems Hfin) as (T & HT & _).
    rewrite HT in Hnz |- *.
    assert (HT0 : ~ T == 0) by (intros H0; apply Hnz; by apply num_eq_Fin).
    assert (Hlen : ~ inject_Z (Z.of_nat (length analyzedItems)) == 0).
    { destruct analyzedItems; [|by unfold Qeq; simpl; lia].
      exfalso. apply Hnz. vm_compute in HT. by injection HT as <-. }
    split; [done|]. split; [done|]. unfold totalOf, of_nat. cbn [length foldl].
    rewrite !num_div_Fin, !num_mul_Fin by done.
    split; apply num_eq_Fin; field; done.
  - unfold getVENSummary. rewrite summarize_spec. cbn [map].
    eexists _, _, _. split; [reflexivity|]. done.
  - apply matrix_cell_present.
Qed.

(** C9.  The three entries and the nine cells are there for the batch of
    one item of amount 0, which has no item in tier B; the entry of tier B
    has count 0, amount 0 and percentCount 0, but its percentAmount is
    0/0 = NaN, not 0.  For the empty batch both percentages of the entry
    are NaN. *)
Theorem tier_B_entry_of_zero_total :
  let batch := analyzeABC [createItem 1 0 V] in
  map abc batch = [A] /\
  map Summary.category (getABCSummary batch) = [A; B; C] /\
  map Summary.category (getVENSummary batch) = [V; E; N] /\
  length (matrixCells (getABCVENMatrix batch)) = 9%nat /\
  (exists a b c : ABCSummary,
     getABCSummary batch = [a; b; c] /\
     Summary.count b = 0%nat /\ Summary.amount b = 0%num /\
     (Summary.percentCount b === 0)%num /\
     Summary.percentAmount b = NaN) /\
  (exists a b c : ABCSummary,
     getABCSummary [] = [a; b; c] /\
     Summary.count b = 0%nat /\ Summary.amount b = 0%num /\
     Summary.percentCount b = NaN /\
     Summary.percentAmount b = NaN).
Proof.
  cbv zeta. repeat (split; [vm_compute; reflexivity|]).
  split; eexists _, _, _; (split; [reflexivity|]); vm_compute; done.
Qed.

(** * Further properties of the analysis *)

(** ** [analyzeABC]: what it keeps *)

(** X1.  The output of [analyzeABC] is the input rearranged: the items it
    carries, with all the fields of the input, are a permutation of the
    input items, none lost and none repeated. *)
Theorem analyzeABC_permutation (items : list DrugItem) :
  map item (analyzeABC items) ≡ₚ items /\
  length (analyzeABC items) = length items.
Proof.
  split; [|apply analyzeABC_length].
  rewrite analyzeABC_item. apply sort_perm.
Qed.

Lemma analyzeItems_percent (totalAmount c : num) (l : list DrugItem) :
  map percentOfTotal (mapWithState (analyzeItem totalAmount) c l)
  = map (fun it => ((amount it / totalAmount) * 100)%num) l.
Proof.
  revert c. induction l as [|d l IH]; intros c; simpl; [done|].
  by rewrite IH.
Qed.

(** The shares of the output, for finite amounts and a total that is not
    zero: the amounts of the sorted items over their total, as
    rationals. *)
Lemma analyzeABC_shares (items : list DrugItem) :
  Forall amount_finite items ->
  ~ (totalOf amount items === 0)%num ->
  exists (T : Q) (qs : list Q),
    ~ T == 0 /\ Qsum qs == T /\
    (exists T0, totalOf amount items = Fin T0 /\ T0 == T) /\
    qs = map (fun it => Qval (amount it)) (sort compareAmount items) /\
    map percentOfTotal (analyzeABC items)
    = map Fin (map (fun q => q / T * 100) qs).
Proof.
  intros Hfin Hnz.
  destruct (totalOf_sort items Hfin) as (T & T' & HT & HT' & HTT & HTsum).
  rewrite HT in Hnz.
  assert (HT0 : ~ T' == 0).
  { rewrite HTT. intros H0. apply Hnz. by apply num_eq_Fin. }
  exists T', (map (fun it => Qval (amount it)) (sort compareAmount items)).
  split; [done|]. split; [by rewrite <- HTsum|].
  split; [exists T; split; [done|by symmetry]|].
  split; [done|].
  unfold analyzeABC. rewrite analyzeItems_percent, HT', !map_map.
  assert (Hs : Forall amount_finite (sort compareAmount items))
    by by apply Forall_sort.
  generalize dependent (sort compareAmount items). intros s _ _ Hs.
  induction Hs as [|d l Hd _ IH]; simpl; [done|].
  rewrite IH. f_equal. unfold amount_finite in Hd.
  destruct (amount d) as [q| | |]; try discriminate.
  rewrite num_div_Fin, num_mul_Fin by done. reflexivity.
Qed.



(** ** [analyzeABC]: the tiers along the output *)

Lemma tierOf_mono (p q : Q) : p <= q -> tier_le (tierOf (Fin p)) (tierOf (Fin q)).
Proof.
  intros Hpq. unfold tierOf, tier_le. simpl.
  destruct (Qcompare_spec p 80), (Qcompare_spec q 80),
           (Qcompare_spec p 95), (Qcompare_spec q 95); simpl; try lia; lra.
Qed.

Lemma take_map_comm {X Y : Type} (f : X -> Y) (i : nat) (l : list X) :
  take i (map f l) = map f (take i l).
Proof.
  revert i. induction l as [|x l IH]; intros [|i]; simpl; try done.
  by rewrite IH.
Qed.

(** The cumulative share before position [i], for finite amounts and a
    total that is not zero. *)
Lemma cumulativeBefore_finite (items : list DrugItem) (i : nat) :
  Forall amount_finite items ->
  ~ (totalOf amount items === 0)%num ->
  exists (T b : Q) (qs : list Q),
    ~ T == 0 /\ Qsum qs == T /\
    (exists T0, totalOf amount items = Fin T0 /\ T0 == T) /\
    qs = map (fun it => Qval (amount it)) (sort compareAmount items) /\
    cumulativeBefore (analyzeABC items) i = Fin b /\
    b == Qsum (take i qs) / T * 100.
Proof.
  intros Hfin Hnz.
  destruct (analyzeABC_shares items Hfin Hnz)
    as (T & qs & HT0 & Hsum & HT & Hqs & Hshares).
  exists T, (foldl Qplus 0 (take i (map (fun q => q / T * 100) qs))), qs.
  repeat (split; [done|]). split.
  - unfold cumulativeBefore.
    rewrite <- take_map_comm, Hshares, take_map_comm.
    apply foldl_num_add_Fin.
  - rewrite foldl_Qplus, take_map_comm, Qsum_scale by done. lra.
Qed.

Lemma analyzeABC_tiers_sorted (items : list DrugItem) (i j : nat)
    (x y : AnalyzedItem) :
  Forall amount_nonneg items ->
  (totalOf amount items >? 0)%num = true ->
  (i < j)%nat ->
  analyzeABC items !! i = Some x -> analyzeABC items !! j = Some y ->
  tier_le (abc x) (abc y).
Proof.
  intros Hok Hpos Hij Hx Hy.
  assert (Hfin : Forall amount_finite items).
  { eapply Forall_impl; [exact Hok|]. by intros it [? _]. }
  assert (Hnz : ~ (totalOf amount items === 0)%num).
  { destruct (totalOf amount items) as [T| | |]; try discriminate.
    apply num_ltb_Fin in Hpos. intros H0. apply num_eq_Fin in H0. lra. }
  destruct (cumulativeBefore_finite items i Hfin Hnz)
    as (T & bi & qs & HT0 & Hsum & (T0 & HTot & HTa) & Hqs & Hbi & Hbi').
  destruct (cumulativeBefore_finite items j Hfin Hnz)
    as (T2 & bj & qs2 & _ & _ & (T0' & HTot' & HTb) & Hqs2 & Hbj & Hbj').
  rewrite HTot in HTot', Hpos. injection HTot' as <-.
  apply num_ltb_Fin in Hpos.
  subst qs2.  rewrite <- Hqs in Hbj'.
  destruct (analyzeABC_lookup _ _ _ Hx) as [-> _].
  destruct (analyzeABC_lookup _ _ _ Hy) as [-> _].
  rewrite Hbi, Hbj. apply tierOf_mono. rewrite Hbi', Hbj'.
  assert (Hnonneg : Forall (fun q => 0 <= q) qs).
  { rewrite Hqs. apply Forall_fmap, Forall_sort.
    eapply Forall_impl; [exact Hok|].
    intros it [Hf Hge]. simpl. rewrite (is_finite_Fin _ Hf) in Hge.
    by apply num_leb_Fin in Hge. }
  pose proof (Qsum_take_mono qs i j Hnonneg ltac:(lia)) as Hmono.
  assert (HTT : T2 == T) by (by rewrite <- HTa, <- HTb).
  rewrite HTT.
  apply Qmult_le_compat_r; [|lra].
  apply Qmult_le_compat_r; [done|]. apply Qinv_le_0_compat. lra.
Qed.

(** X3.  For finite amounts that are not negative and a positive total,
    the tiers never go back along the output: all the items of tier A come
    first, then those of tier B, then those of tier C. *)
Theorem tiers_in_order (items : list DrugItem) (i j : nat)
    (x y : AnalyzedItem) :
  Forall amount_nonneg items ->
  (totalOf amount items >? 0)%num = true ->
  (i < j)%nat ->
  analyzeABC items !! i = Some x -> analyzeABC items !! j = Some y ->
  tier_le (abc x) (abc y).
Proof. apply analyzeABC_tiers_sorted. Qed.

(** The amounts 70, 15, 10 and 5: the first and the last item. *)
Lemma tiers_in_order_70_15_10_5 :
  exists x y : AnalyzedItem,
    analyzeABC [createItem 1 70 V; createItem 2 15 V;
                createItem 3 10 V; createItem 4 5 V] !! 0%nat = Some x /\
    analyzeABC [createItem 1 70 V; createItem 2 15 V;
                createItem 3 10 V; createItem 4 5 V] !! 3%nat = Some y /\
    tier_le (abc x) (abc y).
Proof.
  eexists _, _. split; [vm_compute; reflexivity|].
  split; [vm_compute; reflexivity|].
  eapply (tiers_in_order [createItem 1 70 V; createItem 2 15 V;
                          createItem 3 10 V; createItem 4 5 V] 0 3).
  - repeat constructor.
  - vm_compute. reflexivity.
  - lia.
  - vm_compute. reflexivity.
  - vm_compute. reflexivity.
Defined.

(** A list in non-increasing order of amount is left as it is by the
    sort. *)
Lemma sort_sorted_id (l : list DrugItem) :
  Forall amount_ok l -> StronglySorted amount_ge l ->
  sort compareAmount l = l.
Proof.
  intros Hok Hs. induction Hs as [|a l Hs IH Hall]; simpl; [done|].
  apply Forall_cons in Hok as [Ha Hl]. rewrite IH by done.
  destruct l as [|b l']; simpl; [done|].
  apply Forall_cons in Hl as [Hb _]. apply Forall_cons in Hall as [Hab _].
  unfold compareAmount. rewrite (num_sub_gtb _ _ Ha Hb).
  rewrite (num_ltb_leb _ _ Ha Hb). unfold amount_ge in Hab. by rewrite Hab.
Qed.

(** X4.  Analysing the items of an analysis again changes nothing: for
    amounts other than NaN, [analyzeABC] applied to the items of its own
    output gives that output. *)
Theorem analyzeABC_again (items : list DrugItem) :
  Forall amount_ok items ->
  analyzeABC (map item (analyzeABC items)) = analyzeABC items.
Proof.
  intros Hok. rewrite analyzeABC_item. unfold analyzeABC.
  rewrite sort_sorted_id; [done|by apply Forall_sort|by apply sort_sorted].
Qed.

(** The amounts 100, 300 and 200 of the test "should sort items by amount
    in descending order". *)
Lemma analyzeABC_again_100_300_200 :
  analyzeABC (map item (analyzeABC
    [createItem 1 100 V; createItem 2 300 V; createItem 3 200 V]))
  = analyzeABC [createItem 1 100 V; createItem 2 300 V; createItem 3 200 V].
Proof. apply analyzeABC_again. repeat constructor. Defined.

(** X5.  Tier A is never empty: for a batch that is not empty, the entry
    of tier A in the summary of its analysis counts at least one item. *)
Theorem tier_A_not_empty (items : list DrugItem) :
  items <> [] ->
  exists a b c : ABCSummary,
    getABCSummary (analyzeABC items) = [a; b; c] /\
    Summary.category a = A /\ (1 <= Summary.count a)%nat.
Proof.
  intros Hne. unfold getABCSummary. rewrite summarize_spec. cbn [map].
  eexists _, _, _. split; [reflexivity|]. split; [reflexivity|].
  cbn [Summary.count].
  destruct (analyzeABC items) as [|first rest] eqn:Hout.
  { apply (f_equal length) in Hout. rewrite analyzeABC_length in Hout.
    destruct items; [done|discriminate]. }
  assert (Hfirst : analyzeABC items !! 0%nat = Some first) by by rewrite Hout.
  destruct (analyzeABC_lookup _ _ _ Hfirst) as [Habc _].
  rewrite bucket_cons, decide_True by done. simpl. lia.
Qed.

(** The batch of a single item of amount 100. *)
Lemma tier_A_not_empty_single :
  exists a b c : ABCSummary,
    getABCSummary (analyzeABC [createItem 1 100 V]) = [a; b; c] /\
    Summary.category a = A /\ (1 <= Summary.count a)%nat.
Proof. apply tier_A_not_empty. discriminate. Defined.

(** ** How the aggregates fit together *)

Lemma bucket_abcven (l : list AnalyzedItem) (a : ABCCategory)
    (v : VENCategory) :
  bucket abcven (a, v) l
  = bucket (fun it : AnalyzedItem => ven it) v (bucket abc a l).
Proof.
  unfold bucket. rewrite list_filter_filter. apply list_filter_iff.
  intros x. unfold abcven. split.
  - by intros [= -> ->].
  - by intros [-> ->].
Qed.

Lemma bucket_abcven_swap (l : list AnalyzedItem) (a : ABCCategory)
    (v : VENCategory) :
  bucket abcven (a, v) l
  = bucket abc a (bucket (fun it : AnalyzedItem => ven it) v l).
Proof.
  unfold bucket. rewrite list_filter_filter. apply list_filter_iff.
  intros x. unfold abcven. split.
  - by intros [= -> ->].
  - by intros [-> ->].
Qed.

(** X6.  The matrix and the distribution count and add up the same items:
    in every cell, [getABCVENMatrix] and [getVENDistributionByABC] hold
    the same count and the same amount; only the percentages differ. *)
Theorem matrix_distribution_agree (analyzedItems : list AnalyzedItem)
    (tier : ABCCategory) (criticality : VENCategory) :
  exists c : CategoryStats.t,
    cell (getABCVENMatrix analyzedItems) tier criticality = Some c /\
    CategoryStats.count c
    = CategoryStats.count
        (getVENDistributionByABC analyzedItems tier criticality) /\
    CategoryStats.amount c
    = CategoryStats.amount
        (getVENDistributionByABC analyzedItems tier criticality).
Proof.
  rewrite getABCVENMatrix_cell, getVENDistributionByABC_cell.
  eexists. split; [reflexivity|]. cbn. by rewrite bucket_abcven.
Qed.

Lemma matrixRow_spec (l : list AnalyzedItem) (a : ABCCategory) :
  matrixRow (getABCVENMatrix l) a
  = map (fun v =>
           matrixPercent (length l)
             (totalOf (fun it : AnalyzedItem => amount it) l)
             (CategoryStats.mk
                (length (bucket abcven (a, v) l))
                (totalOf (fun it : AnalyzedItem => amount it)
                         (bucket abcven (a, v) l))
                0%num 0%num))
        [V; E; N].
Proof. unfold matrixRow. cbn [omap list_omap]. by rewrite !getABCVENMatrix_cell. Qed.

Lemma matrixColumn_spec (l : list AnalyzedItem) (v : VENCategory) :
  matrixColumn (getABCVENMatrix l) v
  = map (fun a =>
           matrixPercent (length l)
             (totalOf (fun it : AnalyzedItem => amount it) l)
             (CategoryStats.mk
                (length (bucket abcven (a, v) l))
                (totalOf (fun it : AnalyzedItem => amount it)
                         (bucket abcven (a, v) l))
                0%num 0%num))
        [A; B; C].
Proof. unfold matrixColumn. cbn [omap list_omap]. by rewrite !getABCVENMatrix_cell. Qed.

(** X7.  The margins of the matrix are the summaries: the counts of the
    three cells of a tier add up to the count of that tier in
    [getABCSummary], and the counts of the three cells of a criticality to
    its count in [getVENSummary]. *)
Theorem matrix_margins (analyzedItems : list AnalyzedItem) :
  (forall tier : ABCCategory,
     exists s : ABCSummary,
       getABCSummary analyzedItems !! ABC_to_nat tier = Some s /\
       Summary.category s = tier /\
       sum_list (map CategoryStats.count
                   (matrixRow (getABCVENMatrix analyzedItems) tier))
       = Summary.count s) /\
  (forall criticality : VENCategory,
     exists s : VENSummary,
       getVENSummary analyzedItems !! VEN_to_nat criticality = Some s /\
       Summary.category s = criticality /\
       sum_list (map CategoryStats.count
                   (matrixColumn (getABCVENMatrix analyzedItems) criticality))
       = Summary.count s).
Proof.
  split.
  - intros a. unfold getABCSummary. rewrite summarize_spec.
    eexists. split; [by destruct a|]. split; [by destruct a|].
    rewrite matrixRow_spec, map_map.
    cbn [CategoryStats.count matrixPercent map].
    rewrite !bucket_abcven.
    rewrite (length_buckets (fun it : AnalyzedItem => ven it) [V; E; N]
               (bucket abc a analyzedItems) VEN_NoDup);
      [by destruct a|apply Forall_forall; intros; apply VEN_all].
  - intros v. unfold getVENSummary. rewrite summarize_spec.
    eexists. split; [by destruct v|]. split; [by destruct v|].
    rewrite matrixColumn_spec, map_map.
    cbn [CategoryStats.count matrixPercent map].
    rewrite !bucket_abcven_swap.
    rewrite (length_buckets abc [A; B; C]
               (bucket (fun it : AnalyzedItem => ven it) v analyzedItems)
               ABC_NoDup);
      [by destruct v|apply Forall_forall; intros; apply ABC_all].
Qed.

(** ** The percentages of the distribution *)






(** ** The percentages of the summaries *)

Section SummaryPercentages.
Context {K : Type} `{EqDecision K} (key : AnalyzedItem -> K).



End SummaryPercentages.



(** ** [analyzeABC] over the store: what it allocates *)

Section StoreAllocation.
Import Store.

Lemma bind_inv {X Y : Type} (c : M X) (k : X -> M Y) (h h' : heap) (y : Y) :
  (c ≫= k) h = Some (y, h') ->
  exists (x : X) (h1 : heap), c h = Some (x, h1) /\ k x h1 = Some (y, h').
Proof.
  unfold mbind, M_bind. destruct (c h) as [[x h1]|]; [eauto|done].
Qed.

Lemma readArray_inv (a : loc) (h h' : heap) (v : list loc) :
  readArray a h = Some (v, h') -> h' = h /\ arrays h !! a = Some v.
Proof.
  unfold readArray. destruct (arrays h !! a); [|done]. by intros [= <- <-].
Qed.

Lemma forEach_readObject_inv (refs : list loc) (h h' : heap)
    (objs : list object) :
  forEach readObject refs h = Some (objs, h') -> h' = h.
Proof.
  revert objs. induction refs as [|r refs IH]; intros objs; simpl.
  - by intros [= _ <-].
  - intros Hrun. apply bind_inv in Hrun as (o & h1 & Ho & Hrun).
    apply bind_inv in Hrun as (os & h2 & Hos & [= _ <-]).
    unfold readObject in Ho. destruct (objects h !! r); [|done].
    injection Ho as _ <-. by apply IH in Hos.
Qed.

Lemma length_forEach_readObject (refs : list loc) (h h' : heap)
    (objs : list object) :
  forEach readObject refs h = Some (objs, h') -> length objs = length refs.
Proof.
  revert objs h'. induction refs as [|r refs IH]; intros objs h'; simpl.
  - by intros [= <- _].
  - intros Hrun. apply bind_inv in Hrun as (o & h1 & Ho & Hrun).
    apply bind_inv in Hrun as (os & h2 & Hos & [= <- _]).
    unfold readObject in Ho. destruct (objects h !! r); [|done].
    injection Ho as _ <-. apply IH in Hos. simpl. by rewrite Hos.
Qed.

Lemma readElements_inv (a : loc) (h h' : heap) (objs : list object) :
  readElements a h = Some (objs, h') -> h' = h.
Proof.
  unfold readElements. intros Hrun.
  apply bind_inv in Hrun as (refs & h1 & Hr & Hrun).
  apply readArray_inv in Hr as [-> _]. by apply forEach_readObject_inv in Hrun.
Qed.

(** One new object per element, each at a reference that was free, and no
    reference twice. *)
Lemma forEachWithState_fresh (totalAmount c : num) (objs : list object)
    (h h' : heap) (out : list loc) :
  forEachWithState (Store.analyzeItem totalAmount) c objs h = Some (out, h') ->
  arrays h' = arrays h /\
  length out = length objs /\
  NoDup out /\
  Forall (fun o => objects h !! o = None) out.
Proof.
  revert c h out. induction objs as [|o objs IH]; intros c h out; simpl.
  - intros [= <- <-]. repeat split; constructor.
  - intros Hrun. apply bind_inv in Hrun as ([l c'] & h1 & Hl & Hrun).
    apply bind_inv in Hrun as (out' & h2 & Hout & [= <- <-]).
    unfold Store.analyzeItem in Hl.
    apply bind_inv in Hl as (l' & h1' & Hnew & [= -> <- ->]).
    unfold newObject in Hnew. injection Hnew as <- <-.
    apply IH in Hout as (Harr & Hlen & Hnd & Hfresh). simpl in *.
    set (l := fresh (dom (objects h))) in *.
    assert (Hl : objects h !! l = None) by apply not_elem_of_dom, is_fresh.
    split; [done|]. split; [by rewrite Hlen|]. split.
    + constructor; [|done]. intros Hin.
      rewrite Forall_forall in Hfresh. specialize (Hfresh l Hin).
      by rewrite lookup_insert_eq in Hfresh.
    + constructor; [done|].
      eapply Forall_impl; [exact Hfresh|]. intros o' Ho'. simpl in Ho'.
      apply lookup_insert_None in Ho'. tauto.
Qed.

Lemma analyzeABC_inv (items r : loc) (h h' : heap) :
  Store.analyzeABC items h = Some (r, h') ->
  exists (elems out : list loc),
    arrays h !! items = Some elems /\
    arrays h !! r = None /\ r <> items /\
    arrays h' !! r = Some out /\
    length out = length elems /\
    NoDup out /\
    Forall (fun o => objects h !! o = None) out.
Proof.
  unfold Store.analyzeABC. intros Hrun.
  apply bind_inv in Hrun as (elems & h0 & Hread & Hrun).
  apply readArray_inv in Hread as [-> Hitems].
  apply bind_inv in Hrun as (s & h1 & Hnew & Hrun).
  unfold newArray in Hnew. injection Hnew as <- <-.
  set (s := fresh (dom (arrays h))) in *.
  assert (Hs : arrays h !! s = None) by apply not_elem_of_dom, is_fresh.
  apply bind_inv in Hrun as ([] & h2 & Hsort & Hrun).
  unfold sortInPlace in Hsort.
  apply bind_inv in Hsort as (refs & h1' & Hrefs & Hsort).
  apply readArray_inv in Hrefs as [-> Hrefs]. simpl in Hrefs.
  rewrite lookup_insert_eq in Hrefs. injection Hrefs as <-.
  apply bind_inv in Hsort as (objs & h1' & Hobjs & Hsort).
  pose proof (length_forEach_readObject _ _ _ _ Hobjs) as Hlen1.
  apply forEach_readObject_inv in Hobjs as ->.
  unfold writeArray in Hsort. simpl in Hsort.
  rewrite lookup_insert_eq in Hsort. injection Hsort as <-.
  apply bind_inv in Hrun as (totalAmount & h2' & Hred & Hrun).
  unfold reduce in Hred.
  apply bind_inv in Hred as (objs1 & h2'' & Hobjs1 & [= _ <-]).
  apply readElements_inv in Hobjs1 as ->.
  apply bind_inv in Hrun as (objs2 & h2' & Hobjs2 & Hrun).
  pose proof Hobjs2 as Hobjs2'.
  apply readElements_inv in Hobjs2 as ->.
  apply bind_inv in Hrun as (out & h3 & Hout & Hnew).
  apply forEachWithState_fresh in Hout as (Harr & Hlen & Hnd & Hfresh).
  unfold newArray in Hnew. injection Hnew as <- <-.
  simpl in *. rewrite insert_insert_eq in Harr.
  set (r := fresh (dom (arrays h3))) in *.
  assert (Hr : arrays h3 !! r = None) by apply not_elem_of_dom, is_fresh.
  rewrite Harr in Hr. apply lookup_insert_None in Hr as [Hr Hrs].
  exists elems, out. split; [done|]. split; [done|]. split.
  { intros ->. by rewrite Hitems in Hr. }
  split; [by rewrite lookup_insert_eq|]. split; [|done].
  rewrite Hlen.
  unfold readElements in Hobjs2'.
  apply bind_inv in Hobjs2' as (refs2 & h2' & Hrefs2 & Hobjs2').
  apply readArray_inv in Hrefs2 as [-> Hrefs2]. simpl in Hrefs2.
  rewrite lookup_insert_eq in Hrefs2. injection Hrefs2 as <-.
  apply length_forEach_readObject in Hobjs2'. rewrite Hobjs2'.
  rewrite length_map, sort_length, length_zip_with. lia.
Qed.

End StoreAllocation.

(** X11.  What [analyzeABC] returns is new: run on an array whose elements
    can be read, it returns an array that is not the input array and that
    did not exist before, holding one reference per input element, all
    different, each to an object that did not exist before.  Nothing the
    caller held is shared with the result. *)
Theorem analyzeABC_result_is_fresh (h : Store.heap) (items : Store.loc)
    (objs : list Store.object) :
  Store.contents h items = Some objs ->
  exists (r : Store.loc) (h' : Store.heap) (out : list Store.loc),
    Store.analyzeABC items h = Some (r, h') /\
    Store.arrays h' !! r = Some out /\
    r <> items /\
    Store.arrays h !! r = None /\
    length out = length objs /\
    NoDup out /\
    Forall (fun o => Store.objects h !! o = None) out.
Proof.
  intros Hc.
  destruct (analyzeABC_run h items objs Hc) as (r & h' & Hrun & _ & _).
  destruct (analyzeABC_inv items r h h' Hrun)
    as (elems & out & Helems & Hr & Hne & Hout & Hlen & Hnd & Hfresh).
  exists r, h', out. repeat (split; [done|]). split; [|done].
  rewrite Hlen. unfold Store.contents in Hc. rewrite Helems in Hc.
  simpl in Hc. by apply length_mapM in Hc.
Qed.

(** The run on the store of two items. *)
Lemma analyzeABC_result_is_fresh_two_items :
  exists (r : Store.loc) (h' : Store.heap) (out : list Store.loc),
    Store.analyzeABC 1%positive twoItemsStore = Some (r, h') /\
    Store.arrays h' !! r = Some out /\
    r <> 1%positive /\
    Store.arrays twoItemsStore !! r = None /\
    length out = 2%nat /\
    NoDup out /\
    Forall (fun o => Store.objects twoItemsStore !! o = None) out.
Proof.
  apply (analyzeABC_result_is_fresh twoItemsStore 1%positive
           [Store.ODrugItem (createItem 1 100 V);
            Store.ODrugItem (createItem 2 300 V)]).
  vm_compute. reflexivity.
Defined.

(** * The parser *)

(** ** Strings *)

Lemma string_app_cons (c : Ascii.ascii) (s t : string) :
  (String c s +:+ t)%string = String c (s +:+ t)%string.
Proof. reflexivity. Qed.

Lemma string_app_nil_l (s : string) : (EmptyString +:+ s)%string = s.
Proof. reflexivity. Qed.

Lemma string_app_nil_r (s : string) : (s +:+ EmptyString)%string = s.
Proof.
  induction s as [|c s IH]; [done|]. by rewrite string_app_cons, IH.
Qed.

Lemma string_app_assoc (s t u : string) :
  ((s +:+ t) +:+ u)%string = (s +:+ (t +:+ u))%string.
Proof.
  induction s as [|c s IH]; [done|]. by rewrite !string_app_cons, IH.
Qed.

Lemma pushChar_app (current : string) (c : Ascii.ascii) (s : string) :
  (pushChar current c +:+ s)%string = (current +:+ String c s)%string.
Proof. unfold pushChar. by rewrite string_app_assoc. Qed.

Lemma ascii_eqb_false (a b : Ascii.ascii) : Ascii.eqb a b = false <-> a <> b.
Proof. apply Ascii.eqb_neq. Qed.

Lemma joinComma_snoc (l : list string) (x : string) :
  l <> [] ->
  joinComma (l ++ [x])
  = (joinComma l +:+ String comma EmptyString +:+ x)%string.
Proof.
  intros Hl. induction l as [|a l IH]; [done|].
  destruct l as [|b l]; [done|].
  change (joinComma ((a :: b :: l) ++ [x]))
    with (a +:+ String comma EmptyString +:+ joinComma ((b :: l) ++ [x]))%string.
  rewrite IH by done.
  change (joinComma (a :: b :: l))
    with (a +:+ String comma EmptyString +:+ joinComma (b :: l))%string.
  by rewrite !string_app_assoc.
Qed.

Lemma joinComma_snoc_app (l : list string) (a b : string) :
  joinComma (l ++ [(a +:+ b)%string]) = (joinComma (l ++ [a]) +:+ b)%string.
Proof.
  destruct l as [|x l]; [done|].
  rewrite !joinComma_snoc by done. by rewrite !string_app_assoc.
Qed.

(** ** [parseCSVLine] on a line without quotes *)

Lemma parseChars_unquoted (line : string) (result : list string)
    (current : string) :
  includesChar quote line = false ->
  includesChar comma current = false ->
  Forall (fun f => includesChar comma f = false) result ->
  joinComma (parseChars line result current false)
  = (joinComma (result ++ [current]) +:+ line)%string /\
  Forall (fun f => includesChar comma f = false)
         (parseChars line result current false).
Proof.
  revert result current.
  induction line as [|c rest IH]; intros result current Hq Hc Hres.
  - simpl. split; [by rewrite string_app_nil_r|].
    apply Forall_app. split; [done|by constructor].
  - cbn [includesChar] in Hq. apply orb_false_iff in Hq as [Hcq Hq].
    cbn [parseChars]. rewrite Hcq.
    destruct (Ascii.eqb c comma) eqn:Hcc; cbn [andb negb].
    + apply Ascii.eqb_eq in Hcc as ->.
      destruct (IH (result ++ [current]) EmptyString Hq eq_refl) as [IH1 IH2].
      { apply Forall_app. split; [done|by constructor]. }
      split; [|done]. rewrite IH1, joinComma_snoc by by destruct result.
      by rewrite !string_app_assoc.
    + destruct (IH result (pushChar current c) Hq) as [IH1 IH2]; [|done|].
      { unfold pushChar. clear -Hc Hcc.
        induction current as [|x s IHs]; simpl in *.
        - by rewrite Hcc.
        - apply orb_false_iff in Hc as [-> Hc]. by apply IHs. }
      split; [|done]. rewrite IH1. unfold pushChar.
      rewrite joinComma_snoc_app. by rewrite string_app_assoc.
Qed.

(** X12.  On a line without a double quote [parseCSVLine] is the split at
    the commas: no field contains a comma, and the fields joined by commas
    are the line again. *)
Theorem parseCSVLine_unquoted (line : string) :
  includesChar quote line = false ->
  joinComma (parseCSVLine line) = line /\
  Forall (fun f => includesChar comma f = false) (parseCSVLine line).
Proof.
  intros Hq. unfold parseCSVLine.
  destruct (parseChars_unquoted line [] EmptyString Hq eq_refl) as [H1 H2];
    [constructor|].
  split; [|done]. by rewrite H1.
Qed.

(** A data line of the test suite. *)
Lemma parseCSVLine_unquoted_data_line :
  joinComma (parseCSVLine "1,Item,pack,10,100.50,V") = "1,Item,pack,10,100.50,V"
  /\ Forall (fun f => includesChar comma f = false)
            (parseCSVLine "1,Item,pack,10,100.50,V").
Proof. apply parseCSVLine_unquoted. vm_compute. reflexivity. Defined.

(** ** [escapeCSV] and [parseCSVLine] *)

Lemma parseChars_plain (s rest : string) (result : list string)
    (current : string) :
  includesChar quote s = false -> includesChar comma s = false ->
  parseChars (s +:+ rest) result current false
  = parseChars rest result (current +:+ s) false.
Proof.
  revert current. induction s as [|c s IH]; intros current Hq Hc.
  - by rewrite string_app_nil_l, string_app_nil_r.
  - cbn [includesChar] in Hq, Hc.
    apply orb_false_iff in Hq as [Hcq Hq].
    apply orb_false_iff in Hc as [Hcc Hc].
    rewrite string_app_cons. cbn [parseChars]. rewrite Hcq, Hcc. cbn [andb].
    rewrite IH by done. by rewrite pushChar_app.
Qed.

(** Inside quotes: the doubled text up to the closing quote is read back as
    the text, commas and line feeds included. *)
Lemma parseChars_quoted (s rest : string) (result : list string)
    (current : string) :
  notQuoteHead rest ->
  parseChars (doubleQuotes s +:+ String quote rest) result current true
  = parseChars rest result (current +:+ s) false.
Proof.
  intros Hrest. revert current. induction s as [|c s IH]; intros current.
  - rewrite string_app_nil_r. cbn [doubleQuotes].
    rewrite string_app_nil_l. cbn [parseChars].
    change (Ascii.eqb quote quote) with true. cbv iota.
    destruct rest as [|next rest']; [done|].
    simpl in Hrest. apply ascii_eqb_false in Hrest. by rewrite Hrest.
  - cbn [doubleQuotes]. destruct (Ascii.eqb c quote) eqn:Hc.
    + apply Ascii.eqb_eq in Hc as ->.
      rewrite !string_app_cons. cbn [parseChars].
      change (Ascii.eqb quote quote) with true. cbv iota.
      rewrite IH. by rewrite pushChar_app.
    + rewrite string_app_cons. cbn [parseChars]. rewrite Hc.
      rewrite andb_false_r. rewrite IH. by rewrite pushChar_app.
Qed.

Section RoundTrip.
Variable numberToString : num -> string.

Lemma parseChars_field (value : CellValue) (rest : string)
    (result : list string) (current : string) :
  notQuoteHead rest ->
  parseChars (escapeCSV numberToString value +:+ rest) result current false
  = parseChars rest result (current +:+ cellText numberToString value) false.
Proof.
  intros Hrest.
  assert (Hstr : forall str,
    parseChars
      ((if includesChar comma str || includesChar quote str
           || includesChar lineFeed str
        then String quote (doubleQuotes str +:+ String quote EmptyString)
        else str) +:+ rest) result current false
    = parseChars rest result (current +:+ str) false).
  { intros str.
    destruct (includesChar comma str) eqn:Hc;
      [|destruct (includesChar quote str) eqn:Hq;
        [|destruct (includesChar lineFeed str) eqn:Hn]]; cbn [orb].
    4:{ by apply parseChars_plain. }
    all: rewrite string_app_cons, string_app_assoc, string_app_cons,
           string_app_nil_l; cbn [parseChars];
         change (Ascii.eqb quote quote) with true; cbv iota;
         by rewrite parseChars_quoted. }
  destruct value; cbn [escapeCSV cellText].
  - by rewrite string_app_nil_l, string_app_nil_r.
  - by rewrite string_app_nil_l, string_app_nil_r.
  - apply Hstr.
  - apply Hstr.
Qed.

Lemma parseChars_row (value : CellValue) (values : list CellValue)
    (result : list string) :
  parseChars (joinComma (map (escapeCSV numberToString) (value :: values)))
             result EmptyString false
  = result ++ map (cellText numberToString) (value :: values).
Proof.
  revert value result. induction values as [|v2 values IH]; intros v result.
  - cbn [map joinComma String.concat].
    rewrite <- (string_app_nil_r (escapeCSV numberToString v)).
    rewrite parseChars_field by done. by rewrite string_app_nil_l.
  - change (joinComma (map (escapeCSV numberToString) (v :: v2 :: values)))
      with (escapeCSV numberToString v +:+
            String comma (joinComma
              (map (escapeCSV numberToString) (v2 :: values))))%string.
    rewrite parseChars_field by (simpl; discriminate).
    rewrite string_app_nil_l. cbn [parseChars].
    change (Ascii.eqb comma quote) with false. cbv iota.
    change (Ascii.eqb comma comma && negb false) with true. cbv iota.
    rewrite IH. by rewrite <- app_assoc.
Qed.

(** X13.  What the converter writes, the parser reads back: a row of cells
    that is not empty, each written by [escapeCSV] and the whole joined by
    commas, is split by [parseCSVLine] into the texts of the cells, with
    their commas, double quotes and line feeds, and with the empty
    string for [null] and [undefined]. *)
Theorem escapeCSV_parseCSVLine (row : list CellValue) :
  row <> [] ->
  parseCSVLine (joinComma (map (escapeCSV numberToString) row))
  = map (cellText numberToString) row.
Proof.
  intros Hrow. destruct row as [|value values]; [done|].
  unfold parseCSVLine. by rewrite parseChars_row.
Qed.

End RoundTrip.

(** The sample row, whatever the text of a number. *)
Lemma escapeCSV_parseCSVLine_sampleRow :
  parseCSVLine (joinComma (map (escapeCSV (fun _ => EmptyString)) sampleRow))
  = map (cellText (fun _ => EmptyString)) sampleRow.
Proof. apply escapeCSV_parseCSVLine. discriminate. Defined.

(** ** [parseCSV] *)

Lemma orZero_not_nan (x : num) : is_nan (orZero x) = false.
Proof. unfold orZero. by destruct x as [q| | |]; simpl; try destruct (Qeq_bool q 0). Qed.

Lemma length_omap_le {X Y : Type} (f : X -> option Y) (l : list X) :
  (length (omap f l) <= length l)%nat.
Proof.
  induction l as [|x l IH]; [done|].
  change (omap f (x :: l))
    with (match f x with Some y => y :: omap f l | None => omap f l end).
  destruct (f x); simpl; lia.
Qed.

Section ParserFacts.
Variables trim toUpperCase : string -> string.
Variables parseInt parseFloat : string -> num.
Variable resolve : string -> string.
Variable readFileSync : string -> option string.

Lemma parseRow_parsedItem (rawLine : string) (it : DrugItem) :
  parseRow trim toUpperCase parseInt parseFloat rawLine = Some it ->
  parsedItem it.
Proof.
  unfold parseRow. cbv zeta.
  destruct (_ || _); [done|].
  destruct (parseCSVLine (trim rawLine))
    as [|p0 [|p1 [|p2 [|p3 [|p4 [|p5 rest]]]]]]; try done.
  destruct (is_nan (parseInt p0)) eqn:Hcode; [done|]. cbn [orb].
  destruct (String.eqb p1 EmptyString) eqn:Hname; [done|].
  destruct (venOfString _) as [v|]; [|done]. intros [= <-].
  unfold parsedItem. cbn. split; [done|]. split.
  - by apply String.eqb_neq.
  - split; apply orZero_not_nan.
Qed.

Lemma parseContent_parsedItem (content : string) :
  Forall parsedItem (parseContent trim toUpperCase parseInt parseFloat content).
Proof.
  unfold parseContent. apply Forall_forall. intros it Hit.
  apply list_elem_of_omap in Hit as (line & _ & Hrow).
  by apply parseRow_parsedItem in Hrow.
Qed.

Lemma parseContent_length (content : string) :
  (length (parseContent trim toUpperCase parseInt parseFloat content)
   <= length (splitLines content) - 4)%nat.
Proof.
  unfold parseContent. rewrite <- length_drop. apply length_omap_le.
Qed.

(** X14.  Whatever the file holds and whatever the built-in functions
    make of it, every item that [parseCSV] returns has a code that is not
    NaN, a name that is not empty, and a quantity and an amount that are
    not NaN: what [parseFloat] cannot read is 0. *)
Theorem parseCSV_items (filePath : string) (items : list DrugItem) :
  parseCSV trim toUpperCase parseInt parseFloat resolve readFileSync filePath
    = Some items ->
  Forall parsedItem items.
Proof.
  unfold parseCSV. cbv zeta.
  destruct (readFileSync (resolve filePath)) as [content|]; [|done].
  intros [= <-]. apply parseContent_parsedItem.
Qed.

(** X15.  From the file to the analysis: whatever [parseCSV] returns,
    [analyzeABC] puts it in non-increasing order of amount; the amounts
    that the parser lets through are never NaN. *)
Theorem parseCSV_analyzeABC_sorted (filePath : string)
    (items : list DrugItem) (i j : nat) (x y : AnalyzedItem) :
  parseCSV trim toUpperCase parseInt parseFloat resolve readFileSync filePath
    = Some items ->
  (i < j)%nat ->
  analyzeABC items !! i = Some x -> analyzeABC items !! j = Some y ->
  (amount y <=? amount x)%num = true.
Proof.
  intros Hparse Hij Hx Hy.
  assert (Hok : Forall amount_ok items).
  { unfold parseCSV in Hparse. cbv zeta in Hparse.
    destruct (readFileSync (resolve filePath)) as [content|]; [|done].
    injection Hparse as <-.
    eapply Forall_impl; [apply parseContent_parsedItem|].
    by intros it (_ & _ & _ & ?). }
  apply (StronglySorted_lookup_lt amount_ge (map item (analyzeABC items)) i j).
  - rewrite analyzeABC_item. by apply sort_sorted.
  - done.
  - change (map item ?l) with (item <$> l). by rewrite list_lookup_fmap, Hx.
  - change (map item ?l) with (item <$> l). by rewrite list_lookup_fmap, Hy.
Qed.

(** X16.  [parseCSV] fails exactly when the file cannot be read.
    Otherwise it returns at most one item for each line after the fourth,
    so that a file of four lines or fewer gives no item. *)
Theorem parseCSV_bounds (filePath : string) :
  match readFileSync (resolve filePath) with
  | None =>
      parseCSV trim toUpperCase parseInt parseFloat resolve readFileSync
               filePath = None
  | Some content =>
      exists items : list DrugItem,
        parseCSV trim toUpperCase parseInt parseFloat resolve readFileSync
                 filePath = Some items /\
        (length items <= length (splitLines content) - 4)%nat /\
        ((length (splitLines content) <= 4)%nat -> items = [])
  end.
Proof.
  unfold parseCSV. cbv zeta.
  destruct (readFileSync (resolve filePath)) as [content|]; [|done].
  eexists. split; [reflexivity|].
  pose proof (parseContent_length content) as Hlen.
  split; [done|]. intros H4.
  destruct (parseContent _ _ _ _ content); [done|simpl in Hlen; lia].
Qed.

End ParserFacts.

(** The sample file, read as its two items. *)
Lemma parseCSV_items_sample : Forall parsedItem sampleItems.
Proof.
  apply (parseCSV_items (fun s => s) (fun s => s) (fun _ => Fin 1)
           (fun _ => Fin 100) (fun path => path) sampleRead "ward.csv").
  vm_compute. reflexivity.
Defined.

Lemma parseCSV_analyzeABC_sorted_sample :
  exists x y : AnalyzedItem,
    analyzeABC sampleItems !! 0%nat = Some x /\
    analyzeABC sampleItems !! 1%nat = Some y /\
    (amount y <=? amount x)%num = true.
Proof.
  eexists _, _. split; [vm_compute; reflexivity|].
  split; [vm_compute; reflexivity|].
  eapply (parseCSV_analyzeABC_sorted (fun s => s) (fun s => s) (fun _ => Fin 1)
            (fun _ => Fin 100) (fun path => path) sampleRead "ward.csv"
            sampleItems 0 1).
  - vm_compute. reflexivity.
  - lia.
  - vm_compute. reflexivity.
  - vm_compute. reflexivity.
Defined.

(** ** The shares of the tiers *)












(** ** The range of the percentages of [analyzeABC] *)





(** ** The number of fields of a line *)

Lemma parseChars_length (n : nat) :
  forall (line : string) (result : list string) (current : string)
         (inQuotes : bool),
    (String.length line <= n)%nat ->
    (length result + 1 <= length (parseChars line result current inQuotes)
     <= length result + 1 + countChar comma line)%nat.
Proof.
  induction n as [|n IH]; intros line result current inQuotes Hn.
  - destruct line; simpl in Hn; [|lia]. simpl. rewrite length_app. simpl. lia.
  - destruct line as [|char rest]; simpl.
    { rewrite length_app. simpl. lia. }
    simpl in Hn.
    destruct (Ascii.eqb char quote) eqn:Hq.
    + apply Ascii.eqb_eq in Hq. subst char.
      change (Ascii.eqb quote comma) with false.
      destruct inQuotes.
      * destruct rest as [|next rest'].
        { apply IH. simpl. lia. }
        destruct (Ascii.eqb next quote) eqn:Hq'.
        -- apply Ascii.eqb_eq in Hq'. subst next. simpl.
           change (Ascii.eqb quote comma) with false.
           apply IH. simpl in Hn. lia.
        -- apply IH. lia.
      * apply IH. lia.
    + destruct (Ascii.eqb char comma) eqn:Hc; simpl.
      * destruct inQuotes; simpl.
        -- specialize (IH rest result (pushChar current char) true
                          ltac:(lia)). lia.
        -- specialize (IH rest (result ++ [current]) EmptyString false
                          ltac:(lia)).
           rewrite length_app in IH. simpl in IH. lia.
      * apply IH. lia.
Qed.

(** X19.  [parseCSVLine] never returns an empty array, and never more
    fields than the line has commas, plus one: a quoted comma joins two
    fields, nothing ever splits one. *)
Theorem parseCSVLine_field_count (line : string) :
  (1 <= length (parseCSVLine line) <= S (countChar comma line))%nat.
Proof.
  unfold parseCSVLine.
  pose proof (parseChars_length (String.length line) line [] EmptyString false
                ltac:(lia)) as H.
  simpl in H. lia.
Qed.
(** ** Agreement with the test suite

    The expectations of [analyzer.test.ts], evaluated in the model. *)

Example test_sort_descending :
  map code (map item (analyzeABC
    [createItem 1 100 V; createItem 2 300 V; createItem 3 200 V]))
  = [of_Z 2; of_Z 3; of_Z 1].
Proof. vm_compute. reflexivity. Qed.

Example test_percent_of_total :
  Forall2 num_eq
    (map percentOfTotal (analyzeABC [createItem 1 80 V; createItem 2 20 V]))
    [Fin 80; Fin 20].
Proof. repeat constructor. Qed.

Example test_cumulative_percent :
  Forall2 num_eq
    (map cumulativePercent (analyzeABC cumulativeItems))
    [Fin 50; Fin 80; Fin 100].
Proof. repeat constructor. Qed.

Example test_A_until_80 :
  map abc (analyzeABC [createItem 1 70 V; createItem 2 15 V;
                       createItem 3 10 V; createItem 4 5 V])
  = [A; A; B; C].
Proof. vm_compute. reflexivity. Qed.

Example test_first_item_exceeds_80 :
  map abc (analyzeABC [createItem 1 90 V; createItem 2 10 V]) = [A; B].
Proof. vm_compute. reflexivity. Qed.

Example test_B_between_80_and_95 :
  map abc (analyzeABC [createItem 1 80 V; createItem 2 10 V;
                       createItem 3 5 V; createItem 4 5 V])
  = [A; B; B; C].
Proof. vm_compute. reflexivity. Qed.

Example test_C_after_95 :
  map abc (analyzeABC [createItem 1 96 V; createItem 2 2 V;
                       createItem 3 1 V; createItem 4 1 V])
  = [A; C; C; C].
Proof. vm_compute. reflexivity. Qed.

Example test_exact_95_boundary :
  map abc (analyzeABC [createItem 1 80 V; createItem 2 15 V;
                       createItem 3 5 V])
  = [A; B; C].
Proof. vm_compute. reflexivity. Qed.

Example test_zero_amounts :
  Forall2 num_eq
    (map percentOfTotal (analyzeABC [createItem 1 100 V; createItem 2 0 V;
                                     createItem 3 0 V]))
    [Fin 100; Fin 0; Fin 0].
Proof. repeat constructor. Qed.

Example test_preserve_ven :
  map (fun it : AnalyzedItem => ven it)
      (analyzeABC [createItem 1 100 V; createItem 2 50 E; createItem 3 25 N])
  = [V; E; N].
Proof. vm_compute. reflexivity. Qed.

Example test_summary_empty_category :
  map Summary.count (getABCSummary emptyCategoryBatch) = [1; 0; 1]%nat /\
  Forall2 num_eq
    (map Summary.percentAmount (getABCSummary emptyCategoryBatch))
    [Fin 98; Fin 0; Fin 2].
Proof. split; [vm_compute; reflexivity|repeat constructor]. Qed.

Example test_matrix_sums :
  CategoryStats.amount <$> cell (getABCVENMatrix matrixBatch) A V
    = Some (Fin 80000) /\
  CategoryStats.count <$> cell (getABCVENMatrix matrixBatch) A V
    = Some 2%nat /\
  CategoryStats.count <$> cell (getABCVENMatrix matrixBatch) A E
    = Some 0%nat.
Proof. vm_compute. done. Qed.

Example test_distribution_within_group :
  Forall2 num_eq
    (map CategoryStats.percentAmount
       (tierCells (getVENDistributionByABC
          [createAnalyzedItem 1 60000 A V; createAnalyzedItem 2 30000 A E;
           createAnalyzedItem 3 10000 A N; createAnalyzedItem 4 10000 B V;
           createAnalyzedItem 5 5000 B E]) A))
    [Fin 60; Fin 30; Fin 10].
Proof. repeat constructor. Qed.

Example test_distribution_empty_group :
  map CategoryStats.percentAmount
    (tierCells (getVENDistributionByABC
       [createAnalyzedItem 1 80000 A V; createAnalyzedItem 2 20000 C E]) B)
  = [0%num; 0%num; 0%num].
Proof. vm_compute. reflexivity. Qed.
